(** * HPU plugins of the Lightning training framework

    A shallow embedding of
    - [pl_examples/hpu_examples/Convolution_hpu_datamodule.py]
      (the weight-layout callback [DataLayoutPlugin] and its [permute_params]),
    - [pytorch_lightning/strategies/hpu.py] ([HPUStrategy]),
    - [lightning/fabric/strategies/parallel_hpu.py] ([HPUParallelStrategy]),
    followed by the properties of the layout transform and of the strategy
    hooks.

    Python objects that are mutated in place live in an explicit state;
    a statement that can raise returns an [outcome]; calls into the host
    framework and into the accelerator runtime are recorded in a trace and
    answered by an implementation the development is parametric in. *)

From Stdlib Require Import ZArith Lia.
From stdpp Require Import base option list strings gmap pretty.

Set Warnings "-register-all".

(** ** Python: exceptions and statements with effects *)
Module Py.

(** The exception classes the three files raise or let through. *)
Inductive exn : Type :=
  | ValueError (msg : string)
  | MisconfigurationException (msg : string)
  | RuntimeError (msg : string)
  | IndexError (msg : string)
  | NameError (msg : string)
  | OtherException (tag : nat).

Inductive outcome (A : Type) : Type :=
  | Ok (a : A)
  | Raise (e : exn).
Arguments Ok {A} a.
Arguments Raise {A} e.

(** A statement run in state [St]: it ends normally with a value or by an
    exception, and in both cases the mutations made so far stay. *)
Definition M (St A : Type) : Type := St → outcome A * St.

Definition ret {St A} (a : A) : M St A := λ s, (Ok a, s).

Definition bind {St A B} (m : M St A) (k : A → M St B) : M St B :=
  λ s, match m s with
       | (Ok a, s') => k a s'
       | (Raise e, s') => (Raise e, s')
       end.

Definition raise {St A} (e : exn) : M St A := λ s, (Raise e, s).
Definition get {St} : M St St := λ s, (Ok s, s).
Definition modify {St} (f : St → St) : M St unit := λ s, (Ok tt, f s).

#[global] Instance M_ret {St} : MRet (M St) := @ret St.
#[global] Instance M_bind {St} : MBind (M St) := λ A B k m, bind m k.

(** [for x in xs: body x] *)
Fixpoint for_ {St X} (xs : list X) (body : X → M St unit) : M St unit :=
  match xs with
  | [] => ret tt
  | x :: xs' => bind (body x) (λ _, for_ xs' body)
  end.

(** [str(n)] for an [int]. *)
Definition str (n : Z) : string := pretty n.

End Py.

(** ** torch: strided tensors and module trees *)
Module torch.
Import Py.

(** One axis of a strided tensor: its extent and the distance in the storage
    between neighbours along it. *)
Record Axis : Type := mkAxis { extent : nat; step : nat }.

(** A tensor is a view of a storage: [t.size()] is the axes' extents,
    [t.stride()] their steps. *)
Record Tensor (A : Type) : Type := mkTensor {
  storage : list A;
  storage_offset : nat;
  axes : list Axis
}.
Arguments mkTensor {A} storage storage_offset axes.
Arguments storage {A} t.
Arguments storage_offset {A} t.
Arguments axes {A} t.

Section tensor.
Context {A : Type}.
Implicit Type t : Tensor A.

Definition ndim t : nat := length (axes t).
Definition shape t : list nat := extent <$> axes t.
Definition stride t : list nat := step <$> axes t.

(** [t.numel()] *)
Definition numel t : nat := foldr Nat.mul 1 (shape t).

(** Position in the storage, relative to the offset, of the element at a
    multi-index; [None] when the index has the wrong length or leaves an
    extent. *)
Fixpoint flat_index (ax : list Axis) (idx : list nat) : option nat :=
  match ax, idx with
  | [], [] => Some 0
  | a :: ax', i :: idx' =>
      if decide (i < extent a)
      then (λ r, i * step a + r) <$> flat_index ax' idx'
      else None
  | _, _ => None
  end.

(** [t[i0, ..., ik].item()] *)
Definition item t (idx : list nat) : option A :=
  k ← flat_index (axes t) idx; storage t !! (storage_offset t + k).

(** [t.permute(dims)]: a view of the same storage whose axis [i] is axis
    [dims[i]] of [t]. *)
Definition permute (dims : list nat) t : outcome (Tensor A) :=
  if decide (length dims = ndim t) then
    match mapM (λ d, axes t !! d) dims with
    | Some ax =>
        if decide (NoDup dims)
        then Ok (mkTensor (storage t) (storage_offset t) ax)
        else Raise (RuntimeError "permute(): duplicate dims are not allowed.")
    | None => Raise (IndexError "Dimension out of range")
    end
  else Raise (RuntimeError "permute(): number of dimensions does not match the length of dims").

End tensor.

(** The layer classes the callback tells apart, and some it does not. *)
Inductive nn_class : Type :=
  | Conv1d | Conv2d | Conv3d | ConvTranspose2d | Linear | Sequential
  | LightningModule.

#[global] Instance nn_class_eq_dec : EqDecision nn_class.
Proof. solve_decision. Defined.

(** A module: its class, the entries of [_parameters] (a registered name
    bound to a [Parameter] object, given by its identity, or to [None], as
    [bias] is under [bias=False]) and the entries of [_modules]. *)
Inductive Module : Type :=
  mkModule (cls : nn_class) (_parameters : list (string * option nat))
           (_modules : list (string * Module)).

Definition cls (m : Module) : nn_class := let 'mkModule c _ _ := m in c.
Definition _parameters (m : Module) : list (string * option nat) :=
  let 'mkModule _ ps _ := m in ps.
Definition _modules (m : Module) : list (string * Module) :=
  let 'mkModule _ _ ms := m in ms.

(** [isinstance(m, c)]; the classes listed do not derive from one another. *)
Definition isinstance (m : Module) (c : nn_class) : bool := bool_decide (cls m = c).

(** [m.children()]: the direct sub-modules, in registration order. *)
Definition children (m : Module) : list Module := snd <$> _modules m.

Definition qualify (prefix k : string) : string :=
  if decide (prefix = "") then k else prefix +:+ "." +:+ k.

(** All [(name, parameter)] members below [m], the module first and then its
    sub-modules in order, names qualified by the path. *)
Fixpoint members (prefix : string) (m : Module) : list (string * option nat) :=
  match m with
  | mkModule _ ps ms =>
      ((λ kv, (qualify prefix kv.1, kv.2)) <$> ps) ++
      concat ((λ kc, members (qualify prefix kc.1) kc.2) <$> ms)
  end.

(** The filter of [Module._named_members]: a member that is [None] or whose
    object was yielded before is passed over. *)
Fixpoint remove_duplicate (memo : gset nat) (l : list (string * option nat))
    : list (string * nat) :=
  match l with
  | [] => []
  | (_, None) :: l' => remove_duplicate memo l'
  | (k, Some v) :: l' =>
      if decide (v ∈ memo) then remove_duplicate memo l'
      else (k, v) :: remove_duplicate ({[v]} ∪ memo) l'
  end.

(** [m.named_parameters()] *)
Definition named_parameters (m : Module) : list (string * nat) :=
  remove_duplicate ∅ (members "" m).

End torch.

(** ** pl_examples/hpu_examples/Convolution_hpu_datamodule.py *)
Module Convolution_hpu_datamodule.
Import Py torch.

Section DataLayoutPlugin.
Context {A : Type}.

(** [_HPU_AVAILABLE], imported from [pytorch_lightning.utilities]. *)
Variable _HPU_AVAILABLE : bool.

(** What the callback reads and mutates: [param.data] of every [Parameter]
    object (by identity) and the lines printed. [data_writes] is a ghost
    record of the assignments to [param.data], oldest first. *)
Record Heap : Type := mkHeap {
  data : gmap nat (Tensor A);
  stdout : list string;
  data_writes : list nat
}.

Definition of_outcome {X} (r : outcome X) : M Heap X := λ h, (r, h).

Definition print (line : string) : M Heap unit :=
  modify (λ h, mkHeap (data h) (stdout h ++ [line]) (data_writes h)).

(** [param.data = t] *)
Definition set_data (param : nat) (t : Tensor A) : M Heap unit :=
  modify (λ h, mkHeap (<[param := t]> (data h)) (stdout h) (data_writes h ++ [param])).

(** permute the params from filters first (KCRS) to filters last (RSCK) or
    vice versa. An identity with no tensor behind it does not occur in
    Python; the loop passes over it. [torch.no_grad()] only switches
    gradient recording off. *)
Definition permute_params (model : Module) (to_filters_last : bool) : M Heap unit :=
  for_ (named_parameters model) (λ '(name, param),
    h ← get;
    match data h !! param with
    | Some d =>
        if decide (ndim d = 4) then
          if to_filters_last then
            d' ← of_outcome (permute [2; 3; 1; 0] d); set_data param d'
          else
            d' ← of_outcome (permute [3; 2; 0; 1] d); set_data param d'
        else mret tt
    | None => mret tt
    end).

(** [DataLayoutPlugin(model)]: [self.model] is [model]. *)
Definition __init__ (model : Module) : M Heap unit :=
  for_ (children model) (λ layer,
    if isinstance layer Conv1d then
      print "Found conv1d layer........"
    else if isinstance layer Conv2d then
      print "Found conv2d layer........";;
      if _HPU_AVAILABLE then
        permute_params model true
      else mret tt
    else if isinstance layer Conv3d then
      print "$  Found conv3d layer........"
    else mret tt).

(** What one turn of the loop of [permute_params] leaves in [param.data],
    and what one whole pass leaves in the heap; the properties below are
    stated with them. *)
Definition relayout (to_filters_last : bool) (d : Tensor A) : Tensor A :=
  if decide (ndim d = 4) then
    match permute (if to_filters_last then [2; 3; 1; 0] else [3; 2; 0; 1]) d with
    | Ok d' => d'
    | Raise _ => d
    end
  else d.

Definition relayout_all (to_filters_last : bool) (params : list nat)
    (m : gmap nat (Tensor A)) : gmap nat (Tensor A) :=
  foldl (λ m param, alter (relayout to_filters_last) param m) m params.

(** The parameters among [params] whose data has four axes. *)
Definition rank4 (m : gmap nat (Tensor A)) (params : list nat) : list nat :=
  filter (λ param, ndim <$> m !! param = Some 4) params.

(** The heap after one turn of the loop at [entry]. *)
Definition turn (to_filters_last : bool) (h : Heap) (entry : string * nat) : Heap :=
  mkHeap (alter (relayout to_filters_last) entry.2 (data h)) (stdout h)
         (data_writes h ++ rank4 (data h) [entry.2]).

(** The direct sub-modules that reach the [nn.Conv2d] branch of [__init__],
    and how often [__init__] therefore runs [permute_params]. *)
Definition conv2d_children (model : Module) : list Module :=
  filter (λ layer, isinstance layer Conv2d = true) (children model).

Definition passes (model : Module) : nat :=
  if _HPU_AVAILABLE then length (conv2d_children model) else 0.

End DataLayoutPlugin.

Arguments Heap A : clear implicits.
Arguments mkHeap {A} data stdout data_writes.

(** [ConvolutionOnHPU()]: [conv1 = Conv2d(1, 16, kernel_size=3, bias=False)]
    and [l1 = Linear(28 * 28 * 16, 10)]; the parameter objects are numbered
    in registration order. *)
Definition ConvolutionOnHPU : Module :=
  mkModule LightningModule []
    [("conv1", mkModule Conv2d [("weight", Some 0); ("bias", None)] []);
     ("l1", mkModule Linear [("weight", Some 1); ("bias", Some 2)] [])].

(** A contiguous tensor of the given extents over the given storage. *)
Fixpoint contiguous_axes (extents : list nat) : list Axis :=
  match extents with
  | [] => []
  | e :: es => mkAxis e (foldr Nat.mul 1 es) :: contiguous_axes es
  end.

Definition contiguous {A} (elems : list A) (extents : list nat) : Tensor A :=
  mkTensor elems 0 (contiguous_axes extents).

(** A heap for [ConvolutionOnHPU] with recognisable weights: element [i] of
    each storage is the number [i]. *)
Fixpoint count_from (z : Z) (n : nat) : list Z :=
  match n with
  | 0 => []
  | S n' => z :: count_from (Z.succ z) n'
  end.

Definition numbered (n : nat) : list Z := count_from 0 n.

Definition ConvolutionOnHPU_heap : Heap Z :=
  mkHeap
    (<[0 := contiguous (numbered 144) [16; 1; 3; 3]]>
       (<[1 := contiguous (numbered (10 * (28 * 28 * 16))) [10; 28 * 28 * 16]]>
          (<[2 := contiguous (numbered 10) [10]]> ∅)))
    [] [].

(** A model whose only convolution sits inside a container:
    [features = Sequential(Conv2d(1, 16, kernel_size=3, bias=False))] and
    [l1] as above. *)
Definition NestedConvolution : Module :=
  mkModule LightningModule []
    [("features", mkModule Sequential []
        [("0", mkModule Conv2d [("weight", Some 0); ("bias", None)] [])]);
     ("l1", mkModule Linear [("weight", Some 1); ("bias", Some 2)] [])].

(** A model with two convolutions side by side:
    [conv1 = Conv2d(1, 16, kernel_size=3, bias=False)] and
    [conv2 = Conv2d(16, 4, kernel_size=3, bias=False)]. *)
Definition TwoConvolutions : Module :=
  mkModule LightningModule []
    [("conv1", mkModule Conv2d [("weight", Some 0); ("bias", None)] []);
     ("conv2", mkModule Conv2d [("weight", Some 1); ("bias", None)] [])].

Definition TwoConvolutions_heap : Heap Z :=
  mkHeap
    (<[0 := contiguous (numbered 144) [16; 1; 3; 3]]>
       (<[1 := contiguous (numbered 576) [4; 16; 3; 3]]> ∅))
    [] [].


(** A model with tied weights: [encoder = Conv2d(1, 16, kernel_size=3,
    bias=False)], [head = Linear(4, 2, bias=False)] and [decoder] a second
    [Conv2d] with [decoder.weight = encoder.weight], the same object. *)
Definition TiedConvolutions : Module :=
  mkModule LightningModule []
    [("encoder", mkModule Conv2d [("weight", Some 0); ("bias", None)] []);
     ("head", mkModule Linear [("weight", Some 1); ("bias", None)] []);
     ("decoder", mkModule Conv2d [("weight", Some 0); ("bias", None)] [])].

Definition TiedConvolutions_heap : Heap Z :=
  mkHeap
    (<[0 := contiguous (numbered 144) [16; 1; 3; 3]]>
       (<[1 := contiguous (numbered 8) [2; 4]]> ∅))
    [] [].

End Convolution_hpu_datamodule.

(** ** pytorch_lightning/strategies/hpu.py *)
Module hpu.
Import Py.

Section HPUStrategy.
(** Types of the host framework. *)
Context {Trainer Optimizer Attrs : Type}.

(** The strategy object: [self.optimizers] and its other attributes. *)
Record Strategy : Type := mkStrategy {
  optimizers : list Optimizer;
  attrs : Attrs
}.

(** [SingleDeviceStrategy.setup_optimizers], the superclass's method. *)
Variable super_setup_optimizers : Trainer → M Strategy unit.

Definition setup_optimizers (trainer : Trainer) : M Strategy unit :=
  super_setup_optimizers trainer;;
  self ← get;
  if decide (1 < length (optimizers self)) then
    raise (MisconfigurationException "HPUs currently only support one optimizer.")
  else mret tt.

(** The [on_hpu] property. *)
Definition on_hpu : bool := true.

End HPUStrategy.

Arguments Strategy Optimizer Attrs : clear implicits.
Arguments mkStrategy {Optimizer Attrs} optimizers attrs.

(** A superclass that takes the optimizers the trainer's module configures,
    the trainer being given by that list. *)
Definition takes_configured : list nat → M (Strategy nat unit) unit :=
  λ trainer, modify (λ self, mkStrategy trainer (attrs self)).

(** *** The other hooks of [HPUStrategy] *)

(** A [torch.device]: [torch.device("hpu")] is [torch_device "hpu" None]. *)
Record Device : Type := torch_device {
  device_type : string;
  device_index : option Z
}.

(** A checkpoint plug-in: the [serial]-th [HPUCheckpointIO()] constructed,
    or an object handed in by the caller (which, as objects are unless they
    say otherwise, is true in a condition). *)
Inductive CheckpointPlugin : Type :=
  | HPUCheckpointIO (serial : nat)
  | GivenPlugin (id : nat).

(** The calls the hooks make: [super().__init__(device,
    checkpoint_io=checkpoint_io)], [super().setup(trainer)] and
    [self.model.to(device)]. *)
Inductive HookCall (Trainer : Type) : Type :=
  | Super__init__ (device : Device) (checkpoint_io : CheckpointPlugin)
  | Super_setup (trainer : Trainer)
  | Model_to (device : Device).
Arguments Super__init__ {Trainer} device checkpoint_io.
Arguments Super_setup {Trainer} trainer.
Arguments Model_to {Trainer} device.

Section hooks.
Context {Trainer : Type}.

(** The strategy object as the hooks see it: [self.device] (an [int] or a
    [torch.device]), [self.root_device], the number of [HPUCheckpointIO]
    objects constructed so far, and the trace of calls. *)
Record Hooked : Type := mkHooked {
  device : Z + Device;
  root_device : Device;
  plugins_constructed : nat;
  hook_calls : list (HookCall Trainer)
}.

(** [SingleDeviceStrategy]'s methods, [self.model.to] and [torch.device]
    applied to an [int]: whatever they do, return or raise. *)
Variable SingleDeviceStrategy___init__ : Device → CheckpointPlugin → M Hooked unit.
Variable SingleDeviceStrategy_setup : Trainer → M Hooked unit.
Variable model_to : Device → M Hooked unit.
Variable torch_device_of_int : Z → outcome Device.

(** A call is answered by its implementation and entered in the trace. *)
Definition hooked {X} (c : HookCall Trainer) (f : M Hooked X) : M Hooked X :=
  λ s, let '(r, s') := f s in
       (r, mkHooked (device s') (root_device s') (plugins_constructed s')
             (hook_calls s ++ [c])).

(** [HPUCheckpointIO()] *)
Definition new_HPUCheckpointIO : M Hooked CheckpointPlugin :=
  s ← get;
  modify (λ s, mkHooked (device s) (root_device s) (S (plugins_constructed s))
                 (hook_calls s));;
  mret (HPUCheckpointIO (plugins_constructed s)).

Definition __init__ (device : Z) (checkpoint_io : option CheckpointPlugin)
    : M Hooked unit :=
  let device := torch_device "hpu" None in
  checkpoint_io ← match checkpoint_io with
                   | Some io => mret io
                   | None => new_HPUCheckpointIO
                   end;
  hooked (Super__init__ device checkpoint_io)
    (SingleDeviceStrategy___init__ device checkpoint_io).

Definition model_to_device : M Hooked unit :=
  self ← get;
  hooked (Model_to (root_device self)) (model_to (root_device self)).

Definition setup (trainer : Trainer) : M Hooked unit :=
  model_to_device;;
  hooked (Super_setup trainer) (SingleDeviceStrategy_setup trainer).

Definition pre_dispatch : M Hooked unit :=
  self ← get;
  match device self with
  | inl n =>
      d ← (λ s, (torch_device_of_int n, s));
      modify (λ s, mkHooked (inr d) (root_device s) (plugins_constructed s)
                     (hook_calls s))
  | inr _ => mret tt
  end.

End hooks.

Arguments Hooked Trainer : clear implicits.
Arguments mkHooked {Trainer} device root_device plugins_constructed hook_calls.

(** Collaborators that return at once and touch nothing, one [model.to]
    that fails, and a [torch.device] on an [int] that gives the CUDA device
    of that ordinal and refuses an ordinal below zero. *)
Definition quiet_init : Device → CheckpointPlugin → M (Hooked nat) unit :=
  λ _ _, mret tt.
Definition quiet_setup : nat → M (Hooked nat) unit := λ _, mret tt.
Definition quiet_to : Device → M (Hooked nat) unit := λ _, mret tt.
Definition failing_to : Device → M (Hooked nat) unit :=
  λ _, raise (RuntimeError "no such device").
(** A superclass constructor that keeps the device it is given, as
    [self.device] and as the root device. *)
Definition storing_init : Device → CheckpointPlugin → M (Hooked nat) unit :=
  λ d _, modify (λ s, mkHooked (inr d) d (plugins_constructed s) (hook_calls s)).

(** A strategy whose [device] is still the [int] 0. *)
Definition undispatched : Hooked nat :=
  mkHooked (inl 0%Z) (torch_device "hpu" None) 0 [].
Definition ordinal_device : Z → outcome Device :=
  λ n, if decide (0 ≤ n)%Z then Ok (torch_device "cuda" (Some n))
       else Raise (RuntimeError "Device index must not be negative").

End hpu.

(** ** lightning/fabric/strategies/parallel_hpu.py *)
Module parallel_hpu.
Import Py.

(** The Python values that pass through the strategy's hooks. [TensorClass]
    is the class [torch.Tensor] itself, [TensorObj] a tensor, [Object] any
    other object, by identity. *)
Inductive PyObj : Type :=
  | PyNone
  | PyStr (s : string)
  | PyInt (n : Z)
  | TensorClass
  | TensorObj (id : nat)
  | Object (id : nat)
  | PyTuple (items : list PyObj)
  | PyDict (items : list (string * PyObj)).

(** Keyword arguments, in the order written. *)
Abbreviation Kwargs := (list (string * PyObj)).

(** The calls that leave the file: a method of the superclass
    ([super().method(k=v, ...)]) or a function of the accelerator runtime
    ([htcore.function()]). *)
Inductive Call : Type :=
  | Super (method : string) (kwargs : Kwargs)
  | Htcore (function : string).

(** The attributes of the strategy object the file reads or writes. *)
Record Self : Type := mkSelf {
  _process_group_backend : option string;
  local_rank : Z
}.

(** [os.environ], the strategy object, and the trace of calls made so far. *)
Record World : Type := mkWorld {
  environ : gmap string string;
  self : Self;
  calls : list Call
}.

Section HPUParallelStrategy.

(** [_HPU_AVAILABLE] from [lightning.fabric.accelerators.hpu] and
    [_TORCH_LESSER_EQUAL_1_13_1] from [lightning.fabric.utilities.imports]. *)
Variable _HPU_AVAILABLE : bool.
Variable _TORCH_LESSER_EQUAL_1_13_1 : bool.

(** [DDPStrategy]'s methods and the runtime's functions: whatever they do to
    the environment and to the object, and whatever they return or raise. *)
Variable DDPStrategy : string → Kwargs → M World PyObj.
Variable habana : string → M World unit.

(** A call is answered by its implementation and entered in the trace, which
    the implementation has no hand in. *)
Definition traced {X} (c : Call) (f : M World X) : M World X :=
  λ w, let '(r, w') := f w in (r, mkWorld (environ w') (self w') (calls w ++ [c])).

Definition super (method : string) (kwargs : Kwargs) : M World PyObj :=
  traced (Super method kwargs) (DDPStrategy method kwargs).

(** [htcore] is bound by an import that runs only [if _HPU_AVAILABLE]. *)
Definition htcore (function : string) : M World unit :=
  if _HPU_AVAILABLE then traced (Htcore function) (habana function)
  else raise (NameError "name 'htcore' is not defined").

(** [os.environ[key] = value] *)
Definition environ_set (key value : string) : M World unit :=
  modify (λ w, mkWorld (<[key := value]> (environ w)) (self w) (calls w)).

(** [os.environ.pop(key, None)] *)
Definition environ_pop (key : string) : M World (option string) :=
  w ← get;
  modify (λ w, mkWorld (delete key (environ w)) (self w) (calls w));;
  mret (environ w !! key).

Definition __init__ (accelerator parallel_devices cluster_environment checkpoint_io
    precision process_group_backend timeout start_method : PyObj) (kwargs : Kwargs)
    : M World unit :=
  if negb _HPU_AVAILABLE then
    raise (ValueError "`HPUParallelStrategy` requires HPU devices to run")
  else
    modify (λ w, mkWorld (environ w)
                   (mkSelf (Some "hccl") (local_rank (self w))) (calls w));;
    super "__init__"
      ([("accelerator", accelerator); ("parallel_devices", parallel_devices);
        ("cluster_environment", cluster_environment); ("checkpoint_io", checkpoint_io);
        ("precision", precision); ("process_group_backend", process_group_backend);
        ("timeout", timeout); ("start_method", start_method)] ++ kwargs);;
    mret tt.

Definition setup_environment : M World unit :=
  w ← get;
  environ_set "ID" (str (local_rank (self w)));;
  (if decide (_process_group_backend (self w) = Some "hccl") then
     environ_set "HCCL_DISTRIBUTED_BACKEND" (str 1)
   else mret tt);;
  super "setup_environment" [];;
  mret tt.

Definition backward (tensor module : PyObj) (args : list PyObj) (kwargs : Kwargs)
    : M World unit :=
  super "backward"
    [("tensor", TensorClass); ("module", module);
     ("args", PyTuple args); ("kwargs", PyDict kwargs)];;
  if _TORCH_LESSER_EQUAL_1_13_1 then
    htcore "mark_step"
  else mret tt.

Definition optimizer_step (optimizer : PyObj) (kwargs : Kwargs) : M World PyObj :=
  optimizer_output ← super "optimizer_step"
                       [("optimizer", optimizer); ("kwargs", PyDict kwargs)];
  (if _TORCH_LESSER_EQUAL_1_13_1 then
     htcore "mark_step"
   else mret tt);;
  mret optimizer_output.

Definition teardown : M World unit :=
  super "teardown" [];;
  environ_pop "ID";;
  environ_pop "HCCL_DISTRIBUTED_BACKEND";;
  mret tt.

(** The world in which [setup_environment] calls the superclass. *)
Definition announced (w : World) : World :=
  mkWorld
    ((if decide (_process_group_backend (self w) = Some "hccl")
      then <["HCCL_DISTRIBUTED_BACKEND" := "1"]> else id)
       (<["ID" := str (local_rank (self w))]> (environ w)))
    (self w) (calls w).

End HPUParallelStrategy.

(** A superclass and a runtime that return at once and touch nothing. *)
Definition quiet_DDPStrategy : string → Kwargs → M World PyObj :=
  λ _ _, mret PyNone.

(** A process with an empty environment and nothing called yet. *)
Definition fresh (backend : option string) (rank : Z) : World :=
  mkWorld ∅ (mkSelf backend rank) [].

(** A collaborator's call that returns and leaves [os.environ] alone. *)
Definition leaves_environ (f : M World PyObj) : Prop :=
  ∀ w, ∃ v w', f w = (Ok v, w') ∧ environ w' = environ w.

(** A superclass whose methods all fail, nothing touched. *)
Definition failing_DDPStrategy : string → Kwargs → M World PyObj :=
  λ _ _, raise (OtherException 0).

(** A process on the [gloo] backend whose environment already has values
    for both variables, and one more variable. *)
Definition occupied : World :=
  mkWorld
    (<["ID" := "user"]>
       (<["HCCL_DISTRIBUTED_BACKEND" := "0"]> (<["HOME" := "/root"]> ∅)))
    (mkSelf (Some "gloo") 0) [].

(** A runtime whose functions fail. *)
Definition failing_habana : string → M World unit :=
  λ _, raise (OtherException 1).

(** *** The [checkpoint_io] property *)

(** A checkpoint plug-in: the [serial]-th [TorchCheckpointIO()] the getter
    has constructed, or an object handed in by the caller. *)
Inductive CheckpointIO : Type :=
  | TorchCheckpointIO (serial : nat)
  | Plugin (obj : PyObj).

(** [self._checkpoint_io] ([None] for Python's [None]) and the number of
    [TorchCheckpointIO] objects constructed so far. *)
Record Slot : Type := mkSlot {
  _checkpoint_io : option CheckpointIO;
  constructed : nat
}.

(** The getter: [self.checkpoint_io]. *)
Definition checkpoint_io : M Slot (option CheckpointIO) :=
  s ← get;
  (if decide (_checkpoint_io s = None) then
     modify (λ s, mkSlot (Some (TorchCheckpointIO (constructed s))) (S (constructed s)))
   else mret tt);;
  s ← get;
  mret (_checkpoint_io s).

(** The setter: [self.checkpoint_io = io]. *)
Definition set_checkpoint_io (io : option CheckpointIO) : M Slot unit :=
  modify (λ s, mkSlot io (constructed s)).

(** The [process_group_backend] property. *)
Definition process_group_backend (w : World) : option string :=
  _process_group_backend (self w).

(** [determine_ddp_device_ids] returns [None]. *)
Definition determine_ddp_device_ids : PyObj := PyNone.

End parallel_hpu.

(** * Properties *)

(** ** Statements with effects *)
Module PyFacts.
Import Py.

Lemma bind_ok {St X Y} (m : M St X) (k : X → M St Y) s a s' :
  m s = (Ok a, s') → (m ≫= k) s = k a s'.
Proof. intros E. unfold mbind, M_bind, bind. by rewrite E. Qed.

Lemma bind_raise {St X Y} (m : M St X) (k : X → M St Y) s e s' :
  m s = (Raise e, s') → (m ≫= k) s = (Raise e, s').
Proof. intros E. unfold mbind, M_bind, bind. by rewrite E. Qed.

Lemma for_cons_ok {St X} (body : X → M St unit) x xs s s' :
  body x s = (Ok tt, s') → for_ (x :: xs) body s = for_ xs body s'.
Proof. intros E. simpl. unfold bind. by rewrite E. Qed.

End PyFacts.

(** ** Tensors *)
Module TensorFacts.
Import Py torch.

Section tensor.
Context {A : Type}.
Implicit Type t : Tensor A.

Lemma rank4_axes t :
  ndim t = 4 → ∃ a0 a1 a2 a3, axes t = [a0; a1; a2; a3].
Proof.
  unfold ndim. destruct (axes t) as [|a0 [|a1 [|a2 [|a3 [|? ?]]]]]; try discriminate.
  intros _. by exists a0, a1, a2, a3.
Qed.

Lemma shape_axes t e0 e1 e2 e3 :
  shape t = [e0; e1; e2; e3] →
  ∃ s0 s1 s2 s3, axes t = [mkAxis e0 s0; mkAxis e1 s1; mkAxis e2 s2; mkAxis e3 s3].
Proof.
  unfold shape. destruct (axes t) as [|[? s0] [|[? s1] [|[? s2] [|[? s3] [|? ?]]]]];
    try discriminate.
  intros [= -> -> -> ->]. by exists s0, s1, s2, s3.
Qed.

(** The forward permutation of a rank-4 tensor never raises and reorders the
    axes (0,1,2,3) to (2,3,1,0). *)
Lemma permute_filters_last t a0 a1 a2 a3 :
  axes t = [a0; a1; a2; a3] →
  permute [2; 3; 1; 0] t = Ok (mkTensor (storage t) (storage_offset t) [a2; a3; a1; a0]).
Proof.
  intros E. unfold permute, ndim. by rewrite E.
Qed.

Lemma permute_filters_first t a0 a1 a2 a3 :
  axes t = [a0; a1; a2; a3] →
  permute [3; 2; 0; 1] t = Ok (mkTensor (storage t) (storage_offset t) [a3; a2; a0; a1]).
Proof.
  intros E. unfold permute, ndim. by rewrite E.
Qed.

Lemma permute_ndim dims t t' : permute dims t = Ok t' → ndim t' = ndim t.
Proof.
  unfold permute. case_decide as Hlen; [|done].
  destruct (mapM _ dims) as [ax|] eqn:E; [|done].
  case_decide; [|done]. intros [= <-]. unfold ndim at 1. simpl.
  apply length_mapM in E. congruence.
Qed.

(** Reading through the permuted views. *)
Lemma item_filters_last t a0 a1 a2 a3 r s c k :
  axes t = [a0; a1; a2; a3] →
  item (mkTensor (storage t) (storage_offset t) [a2; a3; a1; a0]) [r; s; c; k]
  = item t [k; c; r; s].
Proof.
  intros E. unfold item. rewrite E. simpl.
  repeat case_decide; simpl; try done.
  f_equal. lia.
Qed.

Lemma item_filters_first t a0 a1 a2 a3 r s c k :
  axes t = [a0; a1; a2; a3] →
  item (mkTensor (storage t) (storage_offset t) [a3; a2; a0; a1]) [k; c; r; s]
  = item t [r; s; c; k].
Proof.
  intros E. unfold item. rewrite E. simpl.
  repeat case_decide; simpl; try done.
  f_equal. lia.
Qed.

End tensor.
End TensorFacts.

(** ** The layout transform *)
Module LayoutFacts.
Import Py torch Convolution_hpu_datamodule PyFacts TensorFacts.

Section layout.
Context {A : Type}.
Implicit Type d : Tensor A.
Implicit Type m : gmap nat (Tensor A).
Implicit Type h : Heap A.

Lemma relayout_filters_last d a0 a1 a2 a3 :
  axes d = [a0; a1; a2; a3] →
  relayout true d = mkTensor (storage d) (storage_offset d) [a2; a3; a1; a0].
Proof.
  intros E. unfold relayout. rewrite (permute_filters_last _ _ _ _ _ E).
  case_decide as N; [done|]. unfold ndim in N. by rewrite E in N.
Qed.

Lemma relayout_filters_first d a0 a1 a2 a3 :
  axes d = [a0; a1; a2; a3] →
  relayout false d = mkTensor (storage d) (storage_offset d) [a3; a2; a0; a1].
Proof.
  intros E. unfold relayout. rewrite (permute_filters_first _ _ _ _ _ E).
  case_decide as N; [done|]. unfold ndim in N. by rewrite E in N.
Qed.

Lemma relayout_other_rank dir d : ndim d ≠ 4 → relayout dir d = d.
Proof. intros N. unfold relayout. by rewrite decide_False. Qed.

Lemma relayout_ndim dir d : ndim (relayout dir d) = ndim d.
Proof.
  unfold relayout. case_decide; [|done].
  destruct (permute _ d) as [d'|] eqn:E; [|done]. by apply permute_ndim in E.
Qed.

(** Inverse after forward gives the tensor back: storage, offset and axes. *)
Lemma relayout_round_trip d : relayout false (relayout true d) = d.
Proof.
  destruct (decide (ndim d = 4)) as [R|R].
  - destruct (rank4_axes _ R) as (a0 & a1 & a2 & a3 & E).
    rewrite (relayout_filters_last _ _ _ _ _ E).
    rewrite (relayout_filters_first _ a2 a3 a1 a0) by done.
    destruct d; simpl in *; by subst.
  - rewrite (relayout_other_rank true) by done. by apply relayout_other_rank.
Qed.

Lemma for_turns {X} (body : X → M (Heap A) unit) (step : Heap A → X → Heap A) xs h :
  (∀ x h, body x h = (Ok tt, step h x)) →
  for_ xs body h = (Ok tt, foldl step h xs).
Proof.
  intros Hbody. revert h. induction xs as [|x xs IH]; intros h; [done|].
  rewrite (for_cons_ok _ _ _ _ _ (Hbody x h)). apply IH.
Qed.

Lemma alter_relayout_insert dir p d m :
  m !! p = Some d → <[p := relayout dir d]> m = alter (relayout dir) p m.
Proof.
  intros E. apply map_eq. intros q. rewrite lookup_alter, lookup_insert.
  case_decide; subst; by rewrite ?E.
Qed.

Lemma permute_params_turns model dir h :
  permute_params model dir h = (Ok tt, foldl (turn dir) h (named_parameters model)).
Proof.
  unfold permute_params. apply for_turns. clear h. intros [name p] h.
  unfold turn, rank4. simpl.
  unfold mbind, M_bind, bind, get. simpl.
  destruct (data h !! p) as [d|] eqn:E; simpl.
  - case_decide as R.
    + destruct (rank4_axes _ R) as (a0 & a1 & a2 & a3 & Ea).
      rewrite filter_cons_True by (by rewrite E; simpl; f_equal). 
      rewrite filter_nil.
      rewrite <- (alter_relayout_insert dir p d) by done.
      destruct dir.
      * rewrite (relayout_filters_last _ _ _ _ _ Ea).
        rewrite (permute_filters_last _ _ _ _ _ Ea). done.
      * rewrite (relayout_filters_first _ _ _ _ _ Ea).
        rewrite (permute_filters_first _ _ _ _ _ Ea). done.
    + rewrite filter_cons_False by (rewrite E; simpl; congruence).
      rewrite filter_nil, app_nil_r.
      rewrite <- (alter_relayout_insert dir p d) by done.
      rewrite relayout_other_rank by done. rewrite insert_id by done.
      unfold mret, M_ret, ret. by destruct h.
  - rewrite filter_cons_False by (rewrite E; simpl; congruence).
    rewrite filter_nil, app_nil_r.
    unfold mret, M_ret, ret. f_equal. destruct h; simpl in *. f_equal.
    apply map_eq. intros q. rewrite lookup_alter. case_decide; subst; by rewrite ?E.
Qed.

(** The three components of the heap after the loop. *)
Lemma foldl_turn_stdout dir ps h : stdout (foldl (turn dir) h ps) = stdout h.
Proof. revert h. induction ps as [|x ps IH]; intros h; [done|]. simpl. by rewrite IH. Qed.

Lemma foldl_turn_data dir ps h :
  data (foldl (turn dir) h ps) = relayout_all dir ps.*2 (data h).
Proof.
  revert h. induction ps as [|x ps IH]; intros h; [done|]. simpl. by rewrite IH.
Qed.

Lemma alter_relayout_ndim dir p m q :
  ndim <$> alter (relayout dir) p m !! q = ndim <$> m !! q.
Proof.
  rewrite lookup_alter. case_decide; [subst|done].
  destruct (m !! q); [|done]. simpl. by rewrite relayout_ndim.
Qed.

Lemma rank4_alter dir p m ids : rank4 (alter (relayout dir) p m) ids = rank4 m ids.
Proof.
  unfold rank4. apply list_filter_iff. intros q. by rewrite alter_relayout_ndim.
Qed.

Lemma rank4_relayout_all dir ps m ids : rank4 (relayout_all dir ps m) ids = rank4 m ids.
Proof.
  revert m. induction ps as [|p ps IH]; intros m; [done|].
  unfold relayout_all in *. simpl. by rewrite IH, rank4_alter.
Qed.

Lemma rank4_app m xs ys : rank4 m (xs ++ ys) = rank4 m xs ++ rank4 m ys.
Proof. apply filter_app. Qed.

Lemma foldl_turn_writes dir ps h :
  data_writes (foldl (turn dir) h ps) = data_writes h ++ rank4 (data h) ps.*2.
Proof.
  revert h. induction ps as [|x ps IH]; intros h; simpl.
  - unfold rank4. by rewrite filter_nil, app_nil_r.
  - rewrite IH. simpl. rewrite rank4_alter, <- app_assoc. f_equal.
    by rewrite <- rank4_app.
Qed.

(** [permute_params] always returns, and this is the heap it leaves. *)
Lemma permute_params_spec model dir h :
  permute_params model dir h =
  (Ok tt, mkHeap (relayout_all dir (named_parameters model).*2 (data h)) (stdout h)
            (data_writes h ++ rank4 (data h) (named_parameters model).*2)).
Proof.
  rewrite permute_params_turns. f_equal.
  rewrite <- foldl_turn_data, <- (foldl_turn_stdout dir (named_parameters model) h).
  rewrite <- (foldl_turn_writes dir). by destruct (foldl _ _ _).
Qed.

(** A pass touches the listed parameters and nothing else. *)
Lemma relayout_all_lookup_notin dir ps m p :
  p ∉ ps → relayout_all dir ps m !! p = m !! p.
Proof.
  revert m. induction ps as [|q ps IH]; intros m Hp; [done|].
  apply not_elem_of_cons in Hp as [Hne Hp]. unfold relayout_all in *. simpl.
  rewrite IH by done. by rewrite lookup_alter_ne.
Qed.

Lemma relayout_all_lookup_in dir ps m p :
  NoDup ps → p ∈ ps → relayout_all dir ps m !! p = relayout dir <$> m !! p.
Proof.
  revert m. induction ps as [|q ps IH]; intros m Hnd Hp; [by apply elem_of_nil in Hp|].
  apply NoDup_cons in Hnd as [Hq Hnd]. unfold relayout_all in *. simpl.
  apply elem_of_cons in Hp as [->|Hp].
  - fold (relayout_all dir ps (alter (relayout dir) q m)).
    rewrite relayout_all_lookup_notin by done. by rewrite lookup_alter_eq.
  - rewrite IH by done. rewrite lookup_alter_ne; [done|]. by intros ->.
Qed.

(** Every parameter object is listed once. *)
Lemma remove_duplicate_fresh memo l v :
  v ∈ (remove_duplicate memo l).*2 → v ∉ memo.
Proof.
  revert memo. induction l as [|[k [w|]] l IH]; intros memo; simpl.
  - by intros ?%elem_of_nil.
  - case_decide as Hw.
    + apply IH.
    + simpl. intros [->|Hv%IH]%elem_of_cons; [done|]. set_solver.
  - apply IH.
Qed.

Lemma remove_duplicate_NoDup memo l : NoDup (remove_duplicate memo l).*2.
Proof.
  revert memo. induction l as [|[k [w|]] l IH]; intros memo; simpl.
  - constructor.
  - case_decide as Hw; [apply IH|]. simpl. constructor; [|apply IH].
    intros Hin%remove_duplicate_fresh. set_solver.
  - apply IH.
Qed.

Lemma named_parameters_NoDup model : NoDup (named_parameters model).*2.
Proof. apply remove_duplicate_NoDup. Qed.

Lemma rank4_NoDup m ids : NoDup ids → NoDup (rank4 m ids).
Proof. apply NoDup_filter. Qed.

Lemma rank4_elem m ids p :
  p ∈ rank4 m ids ↔ p ∈ ids ∧ ndim <$> m !! p = Some 4.
Proof. unfold rank4. rewrite list_elem_of_filter. tauto. Qed.

(** The data of one parameter after a pass. *)
Lemma permute_params_lookup model dir h p :
  data (permute_params model dir h).2 !! p =
  if decide (p ∈ (named_parameters model).*2) then relayout dir <$> data h !! p
  else data h !! p.
Proof.
  rewrite permute_params_spec. simpl. case_decide.
  - apply relayout_all_lookup_in; [apply named_parameters_NoDup | done].
  - by apply relayout_all_lookup_notin.
Qed.

Lemma named_parameters_elem model name p :
  (name, p) ∈ named_parameters model → p ∈ (named_parameters model).*2.
Proof. intros H. apply list_elem_of_fmap. by exists (name, p). Qed.


(** The callback's constructor: it always returns, having run the forward
    pass once for every direct [Conv2d] child when the probe is true. *)
Lemma isinstance_exclusive layer c1 c2 :
  isinstance layer c1 = true → c1 ≠ c2 → isinstance layer c2 = false.
Proof.
  unfold isinstance. intros H1%bool_decide_eq_true Hne.
  apply bool_decide_eq_false. congruence.
Qed.

Lemma init_spec probe model h :
  ∃ h', __init__ probe model h = (Ok tt, h') ∧
    data h' = Nat.iter (passes probe model)
                (relayout_all true (named_parameters model).*2) (data h) ∧
    data_writes h' = data_writes h ++
      concat (replicate (passes probe model)
                (rank4 (data h) (named_parameters model).*2)).
Proof.
  unfold __init__, passes, conv2d_children.
  generalize (children model). intros layers. revert h.
  destruct probe.
  - induction layers as [|layer layers IH]; intros h.
    { exists h. simpl. by rewrite app_nil_r. }
    simpl for_. unfold bind.
    destruct (isinstance layer Conv1d) eqn:E1.
    { rewrite filter_cons_False
        by (rewrite (isinstance_exclusive _ _ Conv2d E1); done).
      edestruct IH as (h' & E & Hd & Hw). exists h'. split; [exact E|done]. }
    destruct (isinstance layer Conv2d) eqn:E2.
    { rewrite filter_cons_True by done.
      unfold mbind at 1, M_bind at 1, bind at 1, print at 1, modify at 1.
      rewrite permute_params_spec. simpl data. simpl stdout. simpl data_writes.
      edestruct IH as (h' & E & Hd & Hw). exists h'. split; [exact E|].
      simpl in Hd, Hw. split.
      - rewrite Hd. simpl length. by rewrite Nat.iter_succ_r.
      - rewrite Hw. simpl. rewrite rank4_relayout_all. by rewrite <- app_assoc. }
    rewrite filter_cons_False by (rewrite E2; done).
    destruct (isinstance layer Conv3d) eqn:E3;
      (edestruct IH as (h' & E & Hd & Hw); exists h'; split; [exact E|done]).
  - induction layers as [|layer layers IH]; intros h.
    { exists h. simpl. by rewrite app_nil_r. }
    simpl for_. unfold bind.
    destruct (isinstance layer Conv1d) eqn:E1;
      [|destruct (isinstance layer Conv2d) eqn:E2;
        [|destruct (isinstance layer Conv3d) eqn:E3]];
      (edestruct IH as (h' & E & Hd & Hw); exists h'; split; [exact E|done]).
Qed.

Lemma relayout_all_round_trip ids m :
  NoDup ids → relayout_all false ids (relayout_all true ids m) = m.
Proof.
  intros Hnd. apply map_eq. intros p. destruct (decide (p ∈ ids)) as [Hin|Hin].
  - rewrite !relayout_all_lookup_in by done.
    destruct (m !! p); [|done]. simpl. by rewrite relayout_round_trip.
  - by rewrite !relayout_all_lookup_notin.
Qed.

(** C1. Round trip: for a rank-4 parameter [T] of the model, of extents
    [(e0,e1,e2,e3)], [permute_params(model, True)] followed by
    [permute_params(model, False)] both return; in between the parameter has
    extents [(e2,e3,e1,e0)], and afterwards it is [T] again: the same axis
    order and, index for index, the same elements. The whole heap of
    parameter data is back as it was. *)
Theorem permute_params_round_trip model h name param T e0 e1 e2 e3 :
  (name, param) ∈ named_parameters model →
  data h !! param = Some T →
  shape T = [e0; e1; e2; e3] →
  ∃ h1 h2 F T',
    permute_params model true h = (Ok tt, h1) ∧
    data h1 !! param = Some F ∧ shape F = [e2; e3; e1; e0] ∧
    permute_params model false h1 = (Ok tt, h2) ∧
    data h2 !! param = Some T' ∧ shape T' = [e0; e1; e2; e3] ∧
    (∀ idx, item T' idx = item T idx) ∧ T' = T ∧
    data h2 = data h.
Proof.
  intros Hin Hd Hs. apply named_parameters_elem in Hin.
  destruct (shape_axes _ _ _ _ _ Hs) as (s0 & s1 & s2 & s3 & Ea).
  pose proof (permute_params_lookup model true h param) as L1.
  rewrite decide_True in L1 by done. rewrite Hd in L1. simpl in L1.
  rewrite (relayout_filters_last _ _ _ _ _ Ea) in L1.
  rewrite (permute_params_spec model true h) in L1 |- *.
  eexists _, _, _, T. split; [reflexivity|]. split; [exact L1|]. split; [done|].
  rewrite permute_params_spec. split; [reflexivity|]. simpl.
  rewrite relayout_all_round_trip by apply named_parameters_NoDup.
  done.
Qed.

(** C2. Permutation correctness: for a rank-4 parameter [T] of extents
    [(e0,e1,e2,e3)], the forward pass leaves a tensor of extents
    [(e2,e3,e1,e0)] whose element at [(r,s,c,k)] is [T]'s at [(k,c,r,s)]
    (axis reorder (2,3,1,0)); the inverse pass leaves a tensor of extents
    [(e3,e2,e0,e1)] whose element at [(k,c,r,s)] is [T]'s at [(r,s,c,k)]
    (axis reorder (3,2,0,1)). *)
Theorem permute_params_axis_order model h name param T e0 e1 e2 e3 :
  (name, param) ∈ named_parameters model →
  data h !! param = Some T →
  shape T = [e0; e1; e2; e3] →
  (∃ h' F,
     permute_params model true h = (Ok tt, h') ∧ data h' !! param = Some F ∧
     permute [2; 3; 1; 0] T = Ok F ∧
     shape F = [e2; e3; e1; e0] ∧
     ∀ r s c k, item F [r; s; c; k] = item T [k; c; r; s]) ∧
  (∃ h' I,
     permute_params model false h = (Ok tt, h') ∧ data h' !! param = Some I ∧
     permute [3; 2; 0; 1] T = Ok I ∧
     shape I = [e3; e2; e0; e1] ∧
     ∀ k c r s, item I [k; c; r; s] = item T [r; s; c; k]).
Proof.
  intros Hin Hd Hs. apply named_parameters_elem in Hin.
  destruct (shape_axes _ _ _ _ _ Hs) as (s0 & s1 & s2 & s3 & Ea).
  split.
  - pose proof (permute_params_lookup model true h param) as L.
    rewrite decide_True in L by done. rewrite Hd in L. simpl in L.
    rewrite (relayout_filters_last _ _ _ _ _ Ea) in L.
    rewrite (permute_params_spec model true h) in L |- *.
    eexists _, _. split; [reflexivity|]. split; [exact L|].
    split; [by apply permute_filters_last|]. split; [done|].
    intros r s c k. by apply item_filters_last.
  - pose proof (permute_params_lookup model false h param) as L.
    rewrite decide_True in L by done. rewrite Hd in L. simpl in L.
    rewrite (relayout_filters_first _ _ _ _ _ Ea) in L.
    rewrite (permute_params_spec model false h) in L |- *.
    eexists _, _. split; [reflexivity|]. split; [exact L|].
    split; [by apply permute_filters_first|]. split; [done|].
    intros k c r s. by apply item_filters_first.
Qed.

(** C4. Rank selectivity: a parameter whose data does not have four axes is
    left as it is by [permute_params] in either direction, and is not
    assigned to. *)
Theorem permute_params_skips_other_ranks model (to_filters_last : bool) h param T :
  data h !! param = Some T →
  ndim T ≠ 4 →
  ∃ h' written,
    permute_params model to_filters_last h = (Ok tt, h') ∧
    data h' !! param = Some T ∧
    data_writes h' = data_writes h ++ written ∧ param ∉ written.
Proof.
  intros Hd Hr.
  pose proof (permute_params_lookup model to_filters_last h param) as L.
  rewrite Hd in L. simpl in L. rewrite relayout_other_rank in L by done.
  rewrite (permute_params_spec model to_filters_last h) in L |- *.
  eexists _, _. split; [reflexivity|]. split; [by case_decide|].
  split; [reflexivity|].
  intros (_ & Hn)%rank4_elem. rewrite Hd in Hn. simpl in Hn. congruence.
Qed.

(** C5. Two forward passes in a row are not the identity: a rank-4 parameter
    of extents [(e0,e1,e2,e3)] ends with extents [(e1,e0,e3,e2)], which are
    the original ones only if [e0 = e1] and [e2 = e3]; from (16,1,3,3) it
    ends with (1,16,3,3). *)
Theorem permute_params_twice model h name param T e0 e1 e2 e3 :
  (name, param) ∈ named_parameters model →
  data h !! param = Some T →
  shape T = [e0; e1; e2; e3] →
  ∃ h1 h2 T2,
    permute_params model true h = (Ok tt, h1) ∧
    permute_params model true h1 = (Ok tt, h2) ∧
    data h2 !! param = Some T2 ∧
    shape T2 = [e1; e0; e3; e2] ∧
    (shape T2 = shape T ↔ e0 = e1 ∧ e2 = e3).
Proof.
  intros Hin Hd Hs. apply named_parameters_elem in Hin.
  destruct (shape_axes _ _ _ _ _ Hs) as (s0 & s1 & s2 & s3 & Ea).
  pose proof (permute_params_lookup model true h param) as L1.
  rewrite decide_True in L1 by done. rewrite Hd in L1. simpl in L1.
  rewrite (relayout_filters_last _ _ _ _ _ Ea) in L1.
  pose proof (permute_params_lookup model true (permute_params model true h).2 param) as L2.
  rewrite decide_True in L2 by done. rewrite L1 in L2. simpl in L2.
  erewrite relayout_filters_last in L2 by (simpl; reflexivity). simpl in L2.
  rewrite (permute_params_spec model true h) in L2 |- *.
  simpl in L2. rewrite (permute_params_spec model true) in L2.
  eexists _, _, _. split; [reflexivity|]. split; [apply permute_params_spec|].
  split; [exact L2|]. split; [done|].
  rewrite Hs. unfold shape. simpl. split.
  - intros [=]. split; congruence.
  - by intros [-> ->].
Qed.

(** C3, as the code has it. The constructor always returns. With the probe
    false, or with no direct [Conv2d] child, no parameter is assigned to and
    every parameter keeps its data. With the probe true and exactly one
    direct [Conv2d] child, the assignments made are exactly one to each
    rank-4 parameter of the model, which then holds its data permuted by
    (2,3,1,0), and every other parameter keeps its data. *)
Theorem DataLayoutPlugin_gating (probe : bool) model h :
  ∃ h', __init__ probe model h = (Ok tt, h') ∧
    (probe = false ∨ conv2d_children model = [] →
       data h' = data h ∧ data_writes h' = data_writes h) ∧
    (probe = true ∧ length (conv2d_children model) = 1 →
       data_writes h' =
         data_writes h ++ rank4 (data h) (named_parameters model).*2 ∧
       NoDup (rank4 (data h) (named_parameters model).*2) ∧
       (∀ p d, p ∈ rank4 (data h) (named_parameters model).*2 →
               data h !! p = Some d →
               ∃ d', permute [2; 3; 1; 0] d = Ok d' ∧ data h' !! p = Some d') ∧
       (∀ p, p ∉ rank4 (data h) (named_parameters model).*2 →
             data h' !! p = data h !! p)).
Proof.
  destruct (init_spec probe model h) as (h' & E & Hd & Hw).
  exists h'. split; [done|]. split.
  - intros Hno. assert (passes probe model = 0) as Hz.
    { unfold passes. destruct Hno as [->| ->]; [done|]. by destruct probe. }
    rewrite Hz in Hd, Hw. simpl in Hd, Hw. by rewrite app_nil_r in Hw.
  - intros [-> Hone]. unfold passes in Hd, Hw. rewrite Hone in Hd, Hw.
    simpl in Hd, Hw. rewrite app_nil_r in Hw.
    split; [done|]. split; [apply rank4_NoDup, named_parameters_NoDup|]. split.
    + intros p d [Hin Hr]%rank4_elem Hp. rewrite Hp in Hr. simpl in Hr.
      injection Hr as Hr. destruct (rank4_axes _ Hr) as (a0 & a1 & a2 & a3 & Ea).
      eexists. split; [by apply permute_filters_last|].
      rewrite Hd, relayout_all_lookup_in by (done || apply named_parameters_NoDup).
      rewrite Hp. simpl. by rewrite (relayout_filters_last _ _ _ _ _ Ea).
    + intros p Hp. rewrite Hd.
      destruct (decide (p ∈ (named_parameters model).*2)) as [Hin|Hin].
      * rewrite relayout_all_lookup_in by (done || apply named_parameters_NoDup).
        destruct (data h !! p) as [d|] eqn:Hp'; [|done]. simpl.
        rewrite relayout_other_rank; [done|].
        intros Hr. apply Hp, rank4_elem. split; [done|]. by rewrite Hp', <- Hr.
      * by apply relayout_all_lookup_notin.
Qed.

End layout.

(** *** The example model *)

(** The round trip on [conv1.weight]: (16,1,3,3), then (3,3,1,16), then
    (16,1,3,3) again with every element in place. *)
Lemma permute_params_round_trip_conv1 :
  ∃ h1 h2 F T',
    permute_params ConvolutionOnHPU true ConvolutionOnHPU_heap = (Ok tt, h1) ∧
    data h1 !! 0 = Some F ∧ shape F = [3; 3; 1; 16] ∧
    permute_params ConvolutionOnHPU false h1 = (Ok tt, h2) ∧
    data h2 !! 0 = Some T' ∧ shape T' = [16; 1; 3; 3] ∧
    (∀ idx, item T' idx = item (contiguous (numbered 144) [16; 1; 3; 3]) idx) ∧
    T' = contiguous (numbered 144) [16; 1; 3; 3] ∧
    data h2 = data ConvolutionOnHPU_heap.
Proof.
  apply (permute_params_round_trip ConvolutionOnHPU ConvolutionOnHPU_heap
           "conv1.weight" 0 _ 16 1 3 3).
  - vm_compute. constructor.
  - reflexivity.
  - reflexivity.
Defined.

(** Both reorders on [conv1.weight]. *)
Lemma permute_params_axis_order_conv1 :
  (∃ h' F,
     permute_params ConvolutionOnHPU true ConvolutionOnHPU_heap = (Ok tt, h') ∧
     data h' !! 0 = Some F ∧
     permute [2; 3; 1; 0] (contiguous (numbered 144) [16; 1; 3; 3]) = Ok F ∧
     shape F = [3; 3; 1; 16] ∧
     ∀ r s c k, item F [r; s; c; k]
                = item (contiguous (numbered 144) [16; 1; 3; 3]) [k; c; r; s]) ∧
  (∃ h' I,
     permute_params ConvolutionOnHPU false ConvolutionOnHPU_heap = (Ok tt, h') ∧
     data h' !! 0 = Some I ∧
     permute [3; 2; 0; 1] (contiguous (numbered 144) [16; 1; 3; 3]) = Ok I ∧
     shape I = [3; 3; 16; 1] ∧
     ∀ k c r s, item I [k; c; r; s]
                = item (contiguous (numbered 144) [16; 1; 3; 3]) [r; s; c; k]).
Proof.
  apply (permute_params_axis_order ConvolutionOnHPU ConvolutionOnHPU_heap
           "conv1.weight" 0 _ 16 1 3 3).
  - vm_compute. constructor.
  - reflexivity.
  - reflexivity.
Defined.

(** [l1.weight], of rank 2, under the forward pass and [l1.bias], of rank 1,
    under the inverse pass. *)
Lemma permute_params_skips_l1 :
  (∃ h' written,
     permute_params ConvolutionOnHPU true ConvolutionOnHPU_heap = (Ok tt, h') ∧
     data h' !! 1 = Some (contiguous (numbered (10 * (28 * 28 * 16))) [10; 28 * 28 * 16]) ∧
     data_writes h' = data_writes ConvolutionOnHPU_heap ++ written ∧ 1 ∉ written) ∧
  (∃ h' written,
     permute_params ConvolutionOnHPU false ConvolutionOnHPU_heap = (Ok tt, h') ∧
     data h' !! 2 = Some (contiguous (numbered 10) [10]) ∧
     data_writes h' = data_writes ConvolutionOnHPU_heap ++ written ∧ 2 ∉ written).
Proof.
  split.
  - apply (permute_params_skips_other_ranks ConvolutionOnHPU true ConvolutionOnHPU_heap 1).
    + reflexivity.
    + vm_compute. discriminate.
  - apply (permute_params_skips_other_ranks ConvolutionOnHPU false ConvolutionOnHPU_heap 2).
    + reflexivity.
    + vm_compute. discriminate.
Defined.

(** Two forward passes take [conv1.weight] from (16,1,3,3) to (1,16,3,3). *)
Lemma permute_params_twice_conv1 :
  ∃ h1 h2 T2,
    permute_params ConvolutionOnHPU true ConvolutionOnHPU_heap = (Ok tt, h1) ∧
    permute_params ConvolutionOnHPU true h1 = (Ok tt, h2) ∧
    data h2 !! 0 = Some T2 ∧
    shape T2 = [1; 16; 3; 3] ∧
    (shape T2 = shape (contiguous (numbered 144) [16; 1; 3; 3]) ↔ 16 = 1 ∧ 3 = 3).
Proof.
  apply (permute_params_twice ConvolutionOnHPU ConvolutionOnHPU_heap
           "conv1.weight" 0 _ 16 1 3 3).
  - vm_compute. constructor.
  - reflexivity.
  - reflexivity.
Defined.

(** The callback on [ConvolutionOnHPU], which has one [Conv2d] child: with
    the probe true only [conv1.weight] is assigned to, once; with the probe
    false nothing is. *)
Lemma DataLayoutPlugin_gating_ConvolutionOnHPU :
  (∃ h', __init__ true ConvolutionOnHPU ConvolutionOnHPU_heap = (Ok tt, h') ∧
     data_writes h' = [0] ∧
     (∃ d', permute [2; 3; 1; 0] (contiguous (numbered 144) [16; 1; 3; 3]) = Ok d' ∧
            data h' !! 0 = Some d') ∧
     data h' !! 1 = data ConvolutionOnHPU_heap !! 1 ∧
     data h' !! 2 = data ConvolutionOnHPU_heap !! 2) ∧
  (∃ h', __init__ false ConvolutionOnHPU ConvolutionOnHPU_heap = (Ok tt, h') ∧
     data h' = data ConvolutionOnHPU_heap ∧ data_writes h' = []).
Proof.
  split.
  - destruct (DataLayoutPlugin_gating true ConvolutionOnHPU ConvolutionOnHPU_heap)
      as (h' & E & _ & H).
    destruct H as (Hw & _ & Hp & Ho); [by split; vm_compute|].
    exists h'. split; [exact E|]. split; [exact Hw|]. split.
    + apply Hp; [vm_compute; constructor | reflexivity].
    + split; apply Ho; vm_compute; by intros ?%list_elem_of_singleton.
  - destruct (DataLayoutPlugin_gating false ConvolutionOnHPU ConvolutionOnHPU_heap)
      as (h' & E & H & _).
    destruct H as (Hd & Hw); [by left|].
    exists h'. split; [exact E|]. split; [exact Hd | exact Hw].
Defined.

(** C3 as the specification states it does not hold: [NestedConvolution]
    has one rank-4 parameter, and with the probe true the constructor
    returns with the heap as it was, nothing printed and nothing assigned. *)
Lemma DataLayoutPlugin_nested_conv2d_not_permuted :
  length (rank4 (data ConvolutionOnHPU_heap) (named_parameters NestedConvolution).*2) = 1 ∧
  __init__ true NestedConvolution ConvolutionOnHPU_heap = (Ok tt, ConvolutionOnHPU_heap).
Proof. split; reflexivity. Qed.

(** With two [Conv2d] children the forward pass runs twice: each weight is
    assigned to twice and ends in neither layout. *)
Lemma DataLayoutPlugin_two_conv2d_permuted_twice :
  ∃ h', __init__ true TwoConvolutions TwoConvolutions_heap = (Ok tt, h') ∧
    data_writes h' = [0; 1; 0; 1] ∧
    shape <$> data h' !! 0 = Some [1; 16; 3; 3] ∧
    shape <$> data h' !! 1 = Some [16; 4; 3; 3].
Proof. eexists. split; [vm_compute; reflexivity|]. by vm_compute. Qed.

End LayoutFacts.

(** ** HPUStrategy *)
Module HPUStrategyFacts.
Import Py hpu PyFacts.

Section HPUStrategy.
Context {Trainer Optimizer Attrs : Type}.
Variable super_setup_optimizers : Trainer → M (Strategy Optimizer Attrs) unit.

Lemma setup_optimizers_after_super trainer self self' :
  super_setup_optimizers trainer self = (Ok tt, self') →
  setup_optimizers super_setup_optimizers trainer self =
  if decide (1 < length (optimizers self'))
  then (Raise (MisconfigurationException "HPUs currently only support one optimizer."),
        self')
  else (Ok tt, self').
Proof.
  intros E. unfold setup_optimizers.
  rewrite (bind_ok _ _ _ _ _ E). unfold mbind, M_bind, bind, get.
  by case_decide.
Qed.

(** An exception of the superclass's method passes through. *)
Lemma setup_optimizers_super_raises trainer self e self' :
  super_setup_optimizers trainer self = (Raise e, self') →
  setup_optimizers super_setup_optimizers trainer self = (Raise e, self').
Proof. intros E. unfold setup_optimizers. by rewrite (bind_raise _ _ _ _ _ E). Qed.

(** C6. Once the superclass's [setup_optimizers] has returned,
    [HPUStrategy.setup_optimizers] ends by raising the
    [MisconfigurationException] if and only if the strategy holds more than
    one optimizer, and returns normally if and only if it holds one or none;
    in both cases the strategy is as the superclass left it: the check is the
    last thing done, and nothing catches the exception or runs again. *)
Theorem setup_optimizers_raises_iff trainer self self' :
  super_setup_optimizers trainer self = (Ok tt, self') →
  (setup_optimizers super_setup_optimizers trainer self =
     (Raise (MisconfigurationException "HPUs currently only support one optimizer."),
      self')
   ↔ 1 < length (optimizers self')) ∧
  (setup_optimizers super_setup_optimizers trainer self = (Ok tt, self')
   ↔ length (optimizers self') ≤ 1).
Proof.
  intros E. rewrite (setup_optimizers_after_super _ _ _ E).
  case_decide as L; split; split; intros H; try done; try lia.
Qed.

End HPUStrategy.

(** Two optimizers are refused, one is accepted. *)
Lemma setup_optimizers_two_and_one :
  setup_optimizers takes_configured [1; 2] (mkStrategy [] tt) =
    (Raise (MisconfigurationException "HPUs currently only support one optimizer."),
     mkStrategy [1; 2] tt) ∧
  setup_optimizers takes_configured [7] (mkStrategy [] tt) = (Ok tt, mkStrategy [7] tt).
Proof.
  split.
  - apply (setup_optimizers_raises_iff takes_configured [1; 2] (mkStrategy [] tt)
             (mkStrategy [1; 2] tt)); [reflexivity | simpl; lia].
  - apply (setup_optimizers_raises_iff takes_configured [7] (mkStrategy [] tt)
             (mkStrategy [7] tt)); [reflexivity | simpl; lia].
Defined.

End HPUStrategyFacts.

(** ** HPUParallelStrategy *)
Module HPUParallelStrategyFacts.
Import Py parallel_hpu PyFacts.

Section HPUParallelStrategy.
Variable DDPStrategy : string → Kwargs → M World PyObj.
Variable habana : string → M World unit.
Implicit Type w : World.

(** A traced call appends one entry and keeps what the callee left. *)
Lemma traced_ok {X} c (f : M World X) w v w' :
  f w = (Ok v, w') →
  traced c f w = (Ok v, mkWorld (environ w') (self w') (calls w ++ [c])).
Proof. intros E. unfold traced. by rewrite E. Qed.

Lemma traced_calls {X} c (f : M World X) w :
  calls (traced c f w).2 = calls w ++ [c].
Proof. unfold traced. by destruct (f w). Qed.

Lemma setup_environment_announces w :
  setup_environment DDPStrategy w =
  (super DDPStrategy "setup_environment" [] ;; mret tt) (announced w).
Proof.
  unfold setup_environment, announced.
  unfold mbind at 1, M_bind at 1, bind at 1, get at 1.
  unfold mbind at 1, M_bind at 1, bind at 1, environ_set at 1, modify at 1.
  simpl. case_decide; reflexivity.
Qed.

Lemma teardown_spec w v w' :
  DDPStrategy "teardown" [] w = (Ok v, w') →
  teardown DDPStrategy w =
  (Ok tt, mkWorld (delete "HCCL_DISTRIBUTED_BACKEND" (delete "ID" (environ w')))
            (self w') (calls w ++ [Super "teardown" []])).
Proof.
  intros E. unfold teardown, super.
  rewrite (bind_ok _ _ _ _ _ (traced_ok _ _ _ _ _ E)).
  reflexivity.
Qed.

Lemma teardown_returns_inv w w2 :
  teardown DDPStrategy w = (Ok tt, w2) →
  ∃ v w', DDPStrategy "teardown" [] w = (Ok v, w').
Proof.
  unfold teardown, super, traced. unfold mbind at 1, M_bind at 1, bind at 1.
  destruct (DDPStrategy "teardown" [] w) as [[v|e] w']; [by eauto|done].
Qed.

(** C8. [setup_environment] calls the superclass with [ID] set to
    [str(local_rank)] and, when the backend is ["hccl"], with
    [HCCL_DISTRIBUTED_BACKEND] set to ["1"], the rest of the environment as
    it was; and once [setup_environment] and then [teardown] have returned,
    neither variable is set, whatever the superclass did in between. *)
Theorem environment_set_then_removed w w1 w2 :
  setup_environment DDPStrategy w = (Ok tt, w1) →
  teardown DDPStrategy w1 = (Ok tt, w2) →
  (∃ w0,
     setup_environment DDPStrategy w =
       (super DDPStrategy "setup_environment" [] ;; mret tt) w0 ∧
     environ w0 !! "ID" = Some (str (local_rank (self w))) ∧
     (_process_group_backend (self w) = Some "hccl" →
        environ w0 !! "HCCL_DISTRIBUTED_BACKEND" = Some "1") ∧
     (∀ key, key ≠ "ID" → key ≠ "HCCL_DISTRIBUTED_BACKEND" →
        environ w0 !! key = environ w !! key)) ∧
  environ w2 !! "ID" = None ∧
  environ w2 !! "HCCL_DISTRIBUTED_BACKEND" = None.
Proof.
  intros _ Ht. split.
  - exists (announced w). split; [apply setup_environment_announces|].
    unfold announced. simpl. case_decide as Hb; simpl.
    + split; [by rewrite lookup_insert_ne, lookup_insert_eq|].
      split; [by rewrite lookup_insert_eq|].
      intros key H1 H2. by rewrite !lookup_insert_ne.
    + split; [by rewrite lookup_insert_eq|]. split; [done|].
      intros key H1 H2. by rewrite lookup_insert_ne.
  - destruct (teardown_returns_inv _ _ Ht) as (v & w' & E).
    rewrite (teardown_spec _ _ _ E) in Ht. injection Ht as <-. simpl.
    split.
    + by rewrite lookup_delete_ne, lookup_delete_eq.
    + by rewrite lookup_delete_eq.
Qed.

(** C9. Without the accelerator the constructor raises [ValueError] at
    once: the superclass's [__init__] is not called, no attribute is set,
    the world is as it was; the constructor never returns normally, so no
    strategy object comes out of it. *)
Theorem init_requires_hpu accelerator parallel_devices cluster_environment
    checkpoint_io precision process_group_backend timeout start_method kwargs w :
  __init__ false DDPStrategy accelerator parallel_devices cluster_environment
    checkpoint_io precision process_group_backend timeout start_method kwargs w
  = (Raise (ValueError "`HPUParallelStrategy` requires HPU devices to run"), w) ∧
  (∀ w', __init__ false DDPStrategy accelerator parallel_devices cluster_environment
           checkpoint_io precision process_group_backend timeout start_method kwargs w
         ≠ (Ok tt, w')) ∧
  (∀ kw, Super "__init__" kw ∈
           calls (__init__ false DDPStrategy accelerator parallel_devices
                    cluster_environment checkpoint_io precision process_group_backend
                    timeout start_method kwargs w).2 →
         Super "__init__" kw ∈ calls w).
Proof.
  assert (__init__ false DDPStrategy accelerator parallel_devices cluster_environment
            checkpoint_io precision process_group_backend timeout start_method kwargs w
          = (Raise (ValueError "`HPUParallelStrategy` requires HPU devices to run"), w))
    as E by reflexivity.
  split; [exact E|]. rewrite E. split.
  - intros w' H. discriminate H.
  - intros kw H. exact H.
Qed.

(** C10. Whatever tensor [backward] is called with, the superclass's
    [backward] is called once, with the class [torch.Tensor] as its [tensor]
    argument, and a tensor is never that class; the only other call is the
    flush that may follow. *)
Theorem backward_forwards_Tensor_class (hpu flag : bool) tensor module args kwargs w :
  (∃ rest,
     calls (backward hpu flag DDPStrategy habana tensor module args kwargs w).2 =
       calls w ++
       Super "backward"
         [("tensor", TensorClass); ("module", module);
          ("args", PyTuple args); ("kwargs", PyDict kwargs)] :: rest ∧
     ∀ c, c ∈ rest → c = Htcore "mark_step") ∧
  ∀ t, TensorClass ≠ TensorObj t.
Proof.
  split; [|done].
  unfold backward, super. unfold mbind, M_bind, bind.
  match goal with |- context [traced ?c ?f w] =>
    pose proof (traced_calls c f w) as Hc; destruct (traced c f w) as [[v|e] w1] end;
    simpl in Hc.
  - destruct flag.
    + unfold htcore. destruct hpu.
      * exists [Htcore "mark_step"]. rewrite traced_calls, Hc, <- app_assoc.
        split; [done|]. by intros c ->%list_elem_of_singleton.
      * exists []. simpl. split; [done|]. by intros c ?%elem_of_nil.
    + exists []. simpl. split; [done|]. by intros c ?%elem_of_nil.
  - exists []. simpl. split; [done|]. by intros c ?%elem_of_nil.
Qed.


End HPUParallelStrategy.

(** Local rank 3 on the [hccl] backend, with a superclass that does nothing. *)
Lemma environment_set_then_removed_rank3 :
  (∃ w0,
     setup_environment quiet_DDPStrategy (fresh (Some "hccl") 3) =
       (super quiet_DDPStrategy "setup_environment" [] ;; mret tt) w0 ∧
     environ w0 !! "ID" = Some (str (local_rank (self (fresh (Some "hccl") 3)))) ∧
     (_process_group_backend (self (fresh (Some "hccl") 3)) = Some "hccl" →
        environ w0 !! "HCCL_DISTRIBUTED_BACKEND" = Some "1") ∧
     (∀ key, key ≠ "ID" → key ≠ "HCCL_DISTRIBUTED_BACKEND" →
        environ w0 !! key = environ (fresh (Some "hccl") 3) !! key)) ∧
  environ (teardown quiet_DDPStrategy
             (setup_environment quiet_DDPStrategy (fresh (Some "hccl") 3)).2).2
    !! "ID" = None ∧
  environ (teardown quiet_DDPStrategy
             (setup_environment quiet_DDPStrategy (fresh (Some "hccl") 3)).2).2
    !! "HCCL_DISTRIBUTED_BACKEND" = None.
Proof.
  apply (environment_set_then_removed quiet_DDPStrategy (fresh (Some "hccl") 3)
           (setup_environment quiet_DDPStrategy (fresh (Some "hccl") 3)).2
           (teardown quiet_DDPStrategy
              (setup_environment quiet_DDPStrategy (fresh (Some "hccl") 3)).2).2).
  - reflexivity.
  - reflexivity.
Defined.

(** After [setup_environment] alone both variables are set. *)
Lemma setup_environment_rank3 :
  environ (setup_environment quiet_DDPStrategy (fresh (Some "hccl") 3)).2
  = <["HCCL_DISTRIBUTED_BACKEND" := "1"]> (<["ID" := "3"]> ∅).
Proof. by vm_compute. Qed.



End HPUParallelStrategyFacts.

(** ** More on the layout transform *)
Module LayoutMore.
Import Py torch Convolution_hpu_datamodule PyFacts TensorFacts LayoutFacts.

Section layout.
Context {A : Type}.
Implicit Type d : Tensor A.
Implicit Type m : gmap nat (Tensor A).
Implicit Type h : Heap A.

(** *** One tensor *)

Lemma relayout_forward_after_inverse d : relayout true (relayout false d) = d.
Proof.
  destruct (decide (ndim d = 4)) as [R|R].
  - destruct (rank4_axes _ R) as (a0 & a1 & a2 & a3 & E).
    rewrite (relayout_filters_first _ _ _ _ _ E).
    rewrite (relayout_filters_last _ a3 a2 a0 a1) by done.
    destruct d; simpl in *; by subst.
  - rewrite (relayout_other_rank false) by done. by apply relayout_other_rank.
Qed.

Lemma relayout_twice d a0 a1 a2 a3 :
  axes d = [a0; a1; a2; a3] →
  relayout true (relayout true d)
  = mkTensor (storage d) (storage_offset d) [a1; a0; a3; a2].
Proof.
  intros E. rewrite (relayout_filters_last _ _ _ _ _ E).
  by rewrite (relayout_filters_last _ a2 a3 a1 a0).
Qed.

Lemma relayout_thrice d : relayout true (relayout true (relayout true d)) = relayout false d.
Proof.
  destruct (decide (ndim d = 4)) as [R|R].
  - destruct (rank4_axes _ R) as (a0 & a1 & a2 & a3 & E).
    rewrite (relayout_twice _ _ _ _ _ E).
    rewrite (relayout_filters_last _ a1 a0 a3 a2) by done.
    by rewrite (relayout_filters_first _ _ _ _ _ E).
  - by rewrite !(relayout_other_rank _ d) by done.
Qed.

Lemma relayout_four_times d :
  relayout true (relayout true (relayout true (relayout true d))) = d.
Proof. by rewrite relayout_thrice, relayout_round_trip. Qed.



Lemma relayout_storage dir d :
  storage (relayout dir d) = storage d ∧
  storage_offset (relayout dir d) = storage_offset d ∧
  axes (relayout dir d) ≡ₚ axes d.
Proof.
  destruct (decide (ndim d = 4)) as [R|R].
  - destruct (rank4_axes _ R) as (a0 & a1 & a2 & a3 & E). destruct dir.
    + rewrite (relayout_filters_last _ _ _ _ _ E). simpl. rewrite E.
      split; [done|]. split; [done|]. solve_Permutation.
    + rewrite (relayout_filters_first _ _ _ _ _ E). simpl. rewrite E.
      split; [done|]. split; [done|]. solve_Permutation.
  - by rewrite relayout_other_rank.
Qed.

Lemma product_Permutation (l l' : list Axis) :
  l ≡ₚ l' → foldr Nat.mul 1 (extent <$> l) = foldr Nat.mul 1 (extent <$> l').
Proof.
  intros P. induction P as [|a l l' P IH|a b l|l1 l2 l3 P1 IH1 P2 IH2].
  - done.
  - simpl. f_equal. exact IH.
  - simpl. lia.
  - congruence.
Qed.

Lemma numel_Permutation d d' : axes d' ≡ₚ axes d → numel d' = numel d.
Proof. apply product_Permutation. Qed.

(** *** The heap *)

Lemma iter_relayout_all_lookup_in k ids m p :
  NoDup ids → p ∈ ids →
  Nat.iter k (relayout_all true ids) m !! p = Nat.iter k (relayout true) <$> m !! p.
Proof.
  intros Hnd Hin. induction k as [|k IH]; simpl.
  - by destruct (m !! p).
  - rewrite relayout_all_lookup_in, IH by done. by destruct (m !! p).
Qed.

Lemma relayout_all_dom dir ids m : dom (relayout_all dir ids m) = dom m.
Proof.
  revert m. induction ids as [|p ids IH]; intros m; [done|].
  unfold relayout_all in *. simpl. rewrite IH. apply dom_alter_L.
Qed.

Lemma filter_eq_notin (l : list nat) p : p ∉ l → filter (λ q, q = p) l = [].
Proof.
  induction l as [|x l IH]; intros Hp; [done|].
  apply not_elem_of_cons in Hp as [Hne Hp].
  rewrite filter_cons_False by congruence. by apply IH.
Qed.

Lemma filter_eq_NoDup (l : list nat) p :
  NoDup l → p ∈ l → length (filter (λ q, q = p) l) = 1.
Proof.
  induction l as [|x l IH]; intros Hnd Hin; [by apply elem_of_nil in Hin|].
  apply NoDup_cons in Hnd as [Hx Hnd].
  destruct (decide (x = p)) as [->|Hne].
  - rewrite filter_cons_True by done. by rewrite filter_eq_notin.
  - rewrite filter_cons_False by done. apply IH; [done|].
    apply elem_of_cons in Hin as [->|]; done.
Qed.


(** A parameter registered under any name is among [named_parameters]. *)
Lemma remove_duplicate_complete memo l k v :
  v ∉ memo → (k, Some v) ∈ l → v ∈ (remove_duplicate memo l).*2.
Proof.
  revert memo. induction l as [|[k' [w|]] l IH]; intros memo Hv Hin; simpl.
  - by apply elem_of_nil in Hin.
  - apply elem_of_cons in Hin as [[= -> ->]|Hin].
    + rewrite decide_False by done. simpl. apply elem_of_cons. by left.
    + case_decide as Hw; [by apply IH|]. simpl. apply elem_of_cons.
      destruct (decide (v = w)) as [->|Hne]; [by left|right].
      apply IH; [|done]. intros [?%elem_of_singleton|?]%elem_of_union; done.
  - apply elem_of_cons in Hin as [[=]|Hin]. by apply IH.
Qed.

Lemma registered_named model k p :
  (k, Some p) ∈ members "" model → p ∈ (named_parameters model).*2.
Proof. apply remove_duplicate_complete, not_elem_of_empty. Qed.


(** *** Properties of [permute_params] and of the constructor *)


(** X2. A pass changes the axis order and nothing else: it always
    returns; every tensor in the heap keeps its storage and offset, its axes
    are a rearrangement of the ones it had (so its rank and its number of
    elements stay); nothing is printed, no parameter appears or disappears,
    and a tensor of no parameter of the model is left as it is. *)
Theorem permute_params_keeps_storage model (to_filters_last : bool) h p T :
  data h !! p = Some T →
  ∃ h' T',
    permute_params model to_filters_last h = (Ok tt, h') ∧
    data h' !! p = Some T' ∧
    storage T' = storage T ∧ storage_offset T' = storage_offset T ∧
    axes T' ≡ₚ axes T ∧ ndim T' = ndim T ∧ numel T' = numel T ∧
    stdout h' = stdout h ∧ dom (data h') = dom (data h) ∧
    (p ∉ (named_parameters model).*2 → T' = T).
Proof.
  intros Hd.
  pose proof (permute_params_lookup model to_filters_last h p) as L.
  rewrite Hd in L. rewrite (permute_params_spec model to_filters_last h) in L |- *.
  simpl in L.
  destruct (relayout_storage to_filters_last T) as (Hst & Hoff & Hax).
  case_decide as Hin.
  - eexists _, _. split; [reflexivity|]. split; [exact L|].
    split; [done|]. split; [done|]. split; [done|].
    split; [apply relayout_ndim|]. split; [by apply numel_Permutation|].
    split; [done|]. split; [apply relayout_all_dom|]. done.
  - eexists _, _. split; [reflexivity|]. split; [exact L|].
    split; [done|]. split; [done|]. split; [done|]. split; [done|].
    split; [done|]. split; [done|]. split; [apply relayout_all_dom|]. done.
Qed.

Lemma relayout_all_forward_after_inverse ids m :
  NoDup ids → relayout_all true ids (relayout_all false ids m) = m.
Proof.
  intros Hnd. apply map_eq. intros p. destruct (decide (p ∈ ids)) as [Hin|Hin].
  - rewrite !relayout_all_lookup_in by done.
    destruct (m !! p); [|done]. simpl. by rewrite relayout_forward_after_inverse.
  - by rewrite !relayout_all_lookup_notin.
Qed.

(** X3. The inverse pass followed by the forward pass also restores the
    data of every parameter: starting from filters-last weights, the trip to
    the standard layout and back loses nothing. *)
Theorem permute_params_inverse_then_forward model h :
  ∃ h1 h2,
    permute_params model false h = (Ok tt, h1) ∧
    permute_params model true h1 = (Ok tt, h2) ∧
    data h2 = data h ∧ stdout h2 = stdout h ∧
    data_writes h2 = data_writes h
                     ++ rank4 (data h) (named_parameters model).*2
                     ++ rank4 (data h) (named_parameters model).*2.
Proof.
  eexists _, _. split; [apply permute_params_spec|].
  split; [apply permute_params_spec|]. simpl.
  split; [apply relayout_all_forward_after_inverse, named_parameters_NoDup|].
  split; [done|]. by rewrite rank4_relayout_all, <- app_assoc.
Qed.

Lemma relayout_all_iter ids m k :
  NoDup ids →
  ∀ p, Nat.iter k (relayout_all true ids) m !! p
       = if decide (p ∈ ids) then Nat.iter k (relayout true) <$> m !! p else m !! p.
Proof.
  intros Hnd p. case_decide as Hin; [by apply iter_relayout_all_lookup_in|].
  induction k as [|k IH]; [done|]. simpl. by rewrite relayout_all_lookup_notin.
Qed.

(** X4. The forward pass has order four: four forward passes in a row
    restore the data of every parameter, and three of them leave what one
    inverse pass leaves. *)
Theorem permute_params_forward_order_four model h :
  ∃ h1 h2 h3 h4,
    permute_params model true h = (Ok tt, h1) ∧
    permute_params model true h1 = (Ok tt, h2) ∧
    permute_params model true h2 = (Ok tt, h3) ∧
    permute_params model true h3 = (Ok tt, h4) ∧
    data h4 = data h ∧
    data h3 = data (permute_params model false h).2.
Proof.
  eexists _, _, _, _. split; [apply permute_params_spec|].
  split; [apply permute_params_spec|]. split; [apply permute_params_spec|].
  split; [apply permute_params_spec|]. simpl.
  pose proof (named_parameters_NoDup model) as Hnd. split.
  - apply map_eq. intros p.
    change (Nat.iter 4 (relayout_all true (named_parameters model).*2) (data h) !! p
            = data h !! p).
    rewrite (relayout_all_iter _ (data h) 4 Hnd p). case_decide; [|done].
    destruct (data h !! p); [|done]. simpl. by rewrite relayout_four_times.
  - rewrite permute_params_spec. simpl. apply map_eq. intros p.
    change (Nat.iter 3 (relayout_all true (named_parameters model).*2) (data h) !! p
            = relayout_all false (named_parameters model).*2 (data h) !! p).
    rewrite (relayout_all_iter _ (data h) 3 Hnd p).
    destruct (decide (p ∈ (named_parameters model).*2)) as [Hin|Hin].
    + rewrite relayout_all_lookup_in by done.
      destruct (data h !! p); [|done]. simpl. by rewrite relayout_thrice.
    + by rewrite relayout_all_lookup_notin.
Qed.

(** X5. A pass assigns to each parameter object at most once, also when
    the object is registered under several names (tied weights): a rank-4
    parameter registered anywhere below the model is assigned to exactly
    once and holds its data permuted once. *)
Theorem permute_params_assigns_object_once model (to_filters_last : bool) h name param T :
  (name, Some param) ∈ members "" model →
  data h !! param = Some T →
  ndim T = 4 →
  ∃ h' T' written,
    permute_params model to_filters_last h = (Ok tt, h') ∧
    permute (if to_filters_last then [2; 3; 1; 0] else [3; 2; 0; 1]) T = Ok T' ∧
    data h' !! param = Some T' ∧
    data_writes h' = data_writes h ++ written ∧
    NoDup written ∧
    length (filter (λ q, q = param) written) = 1.
Proof.
  intros Hreg Hd Hr. apply registered_named in Hreg.
  destruct (rank4_axes _ Hr) as (a0 & a1 & a2 & a3 & Ea).
  pose proof (permute_params_lookup model to_filters_last h param) as L.
  rewrite decide_True in L by done. rewrite Hd in L. simpl in L.
  rewrite (permute_params_spec model to_filters_last h) in L |- *.
  assert (NoDup (rank4 (data h) (named_parameters model).*2)) as Hnd
    by apply rank4_NoDup, named_parameters_NoDup.
  assert (param ∈ rank4 (data h) (named_parameters model).*2) as Hp.
  { apply rank4_elem. split; [done|]. rewrite Hd. simpl. by f_equal. }
  destruct to_filters_last.
  - rewrite (relayout_filters_last _ _ _ _ _ Ea) in L.
    eexists _, _, _. split; [reflexivity|].
    split; [by apply permute_filters_last|]. split; [exact L|].
    split; [reflexivity|]. split; [done|]. by apply filter_eq_NoDup.
  - rewrite (relayout_filters_first _ _ _ _ _ Ea) in L.
    eexists _, _, _. split; [reflexivity|].
    split; [by apply permute_filters_first|]. split; [exact L|].
    split; [reflexivity|]. split; [done|]. by apply filter_eq_NoDup.
Qed.



End layout.


(** [conv1.weight] of [ConvolutionOnHPU] under the forward pass. *)
Lemma permute_params_keeps_storage_conv1 :
  ∃ h' T',
    permute_params ConvolutionOnHPU true ConvolutionOnHPU_heap = (Ok tt, h') ∧
    data h' !! 0 = Some T' ∧
    storage T' = storage (contiguous (numbered 144) [16; 1; 3; 3]) ∧
    storage_offset T' = storage_offset (contiguous (numbered 144) [16; 1; 3; 3]) ∧
    axes T' ≡ₚ axes (contiguous (numbered 144) [16; 1; 3; 3]) ∧
    ndim T' = ndim (contiguous (numbered 144) [16; 1; 3; 3]) ∧
    numel T' = numel (contiguous (numbered 144) [16; 1; 3; 3]) ∧
    stdout h' = stdout ConvolutionOnHPU_heap ∧
    dom (data h') = dom (data ConvolutionOnHPU_heap) ∧
    (0 ∉ (named_parameters ConvolutionOnHPU).*2 →
     T' = contiguous (numbered 144) [16; 1; 3; 3]).
Proof.
  apply (permute_params_keeps_storage ConvolutionOnHPU true ConvolutionOnHPU_heap 0).
  reflexivity.
Defined.

(** In [TiedConvolutions] the weight is registered as [encoder.weight] and
    as [decoder.weight]; under the second name too it is assigned to once. *)
Lemma permute_params_assigns_object_once_tied :
  ∃ h' T' written,
    permute_params TiedConvolutions true TiedConvolutions_heap = (Ok tt, h') ∧
    permute [2; 3; 1; 0] (contiguous (numbered 144) [16; 1; 3; 3]) = Ok T' ∧
    data h' !! 0 = Some T' ∧
    data_writes h' = data_writes TiedConvolutions_heap ++ written ∧
    NoDup written ∧
    length (filter (λ q, q = 0) written) = 1.
Proof.
  apply (permute_params_assigns_object_once TiedConvolutions true TiedConvolutions_heap
           "decoder.weight" 0).
  - vm_compute. do 4 right. left.
  - reflexivity.
  - reflexivity.
Defined.

End LayoutMore.

(** ** More on HPUStrategy *)
Module HPUStrategyMore.
Import Py hpu PyFacts HPUStrategyFacts.

Section setup_optimizers.
Context {Trainer Optimizer Attrs : Type}.
Variable super_setup_optimizers : Trainer → M (Strategy Optimizer Attrs) unit.

(** X7. [setup_optimizers] never changes the strategy itself: it ends
    in the state the superclass's method left; and it raises exactly what
    that method raised or, when that method returned with more than one
    optimizer, the [MisconfigurationException]. *)
Theorem setup_optimizers_outcomes trainer self :
  (setup_optimizers super_setup_optimizers trainer self).2
  = (super_setup_optimizers trainer self).2 ∧
  ∀ e, (setup_optimizers super_setup_optimizers trainer self).1 = Raise e ↔
       (super_setup_optimizers trainer self).1 = Raise e ∨
       ((super_setup_optimizers trainer self).1 = Ok tt ∧
        1 < length (optimizers (super_setup_optimizers trainer self).2) ∧
        e = MisconfigurationException "HPUs currently only support one optimizer.").
Proof.
  destruct (super_setup_optimizers trainer self) as [[[]|e'] self'] eqn:E.
  - rewrite (setup_optimizers_after_super _ _ _ _ E). simpl.
    case_decide as L; simpl; (split; [done|]); intros e; split.
    + intros [= <-]. right. done.
    + intros [[=]|(_ & _ & ->)]. done.
    + done.
    + intros [[=]|(_ & ? & _)]. lia.
  - rewrite (setup_optimizers_super_raises _ _ _ _ _ E). simpl.
    split; [done|]. intros e. split.
    + intros [= <-]. by left.
    + intros [[= <-]|([=] & _)]. done.
Qed.

End setup_optimizers.

Section hooks.
Context {Trainer : Type}.
Variable SingleDeviceStrategy___init__ : Device → CheckpointPlugin → M (Hooked Trainer) unit.
Variable SingleDeviceStrategy_setup : Trainer → M (Hooked Trainer) unit.
Variable model_to : Device → M (Hooked Trainer) unit.
Variable torch_device_of_int : Z → outcome Device.
Implicit Type s : Hooked Trainer.

Lemma hooked_calls {X} c (f : M (Hooked Trainer) X) s :
  hook_calls (hooked c f s).2 = hook_calls s ++ [c].
Proof. unfold hooked. by destruct (f s). Qed.


(** X9. [setup] moves the model to the root device before the
    superclass's [setup] runs: if [self.model.to] raises, [setup] raises the
    same exception and the superclass's [setup] is not called; if it
    returns, the superclass's [setup] is the next and last call. *)
Theorem setup_moves_model_first trainer s :
  (∀ e s', model_to (root_device s) s = (Raise e, s') →
     (setup SingleDeviceStrategy_setup model_to trainer s).1 = Raise e ∧
     hook_calls (setup SingleDeviceStrategy_setup model_to trainer s).2
     = hook_calls s ++ [Model_to (root_device s)]) ∧
  (∀ s', model_to (root_device s) s = (Ok tt, s') →
     hook_calls (setup SingleDeviceStrategy_setup model_to trainer s).2
     = hook_calls s ++ [Model_to (root_device s); Super_setup trainer]).
Proof.
  assert (model_to_device model_to s
          = hooked (Model_to (root_device s)) (model_to (root_device s)) s) as Hm
    by reflexivity.
  unfold setup. split.
  - intros e s' E.
    assert (model_to_device model_to s
            = (Raise e, mkHooked (device s') (root_device s') (plugins_constructed s')
                          (hook_calls s ++ [Model_to (root_device s)]))) as H.
    { rewrite Hm. unfold hooked. by rewrite E. }
    by rewrite (bind_raise _ _ _ _ _ H).
  - intros s' E.
    assert (model_to_device model_to s
            = (Ok tt, mkHooked (device s') (root_device s') (plugins_constructed s')
                        (hook_calls s ++ [Model_to (root_device s)]))) as H.
    { rewrite Hm. unfold hooked. by rewrite E. }
    rewrite (bind_ok _ _ _ _ _ H), hooked_calls. simpl. by rewrite <- app_assoc.
Qed.

Lemma pre_dispatch_on_torch_device s d :
  device s = inr d → pre_dispatch torch_device_of_int s = (Ok tt, s).
Proof. intros E. unfold pre_dispatch, mbind, M_bind, bind, get. by rewrite E. Qed.

(** X10. [pre_dispatch] turns an [int] device into a [torch.device] and
    leaves a [torch.device] alone, so running it twice is running it once;
    it makes no call and touches nothing but [self.device]. *)
Theorem pre_dispatch_idempotent s :
  (pre_dispatch torch_device_of_int ;; pre_dispatch torch_device_of_int) s
  = pre_dispatch torch_device_of_int s ∧
  (∀ d, device s = inr d → pre_dispatch torch_device_of_int s = (Ok tt, s)) ∧
  (∀ n d, device s = inl n → torch_device_of_int n = Ok d →
     pre_dispatch torch_device_of_int s
     = (Ok tt, mkHooked (inr d) (root_device s) (plugins_constructed s) (hook_calls s))) ∧
  (∀ n e, device s = inl n → torch_device_of_int n = Raise e →
     pre_dispatch torch_device_of_int s = (Raise e, s)).
Proof.
  assert (∀ s d, device s = inr d → pre_dispatch torch_device_of_int s = (Ok tt, s)) as Hd.
  { intros s0 d E. unfold pre_dispatch, mbind, M_bind, bind, get. by rewrite E. }
  assert (∀ s n d, device s = inl n → torch_device_of_int n = Ok d →
            pre_dispatch torch_device_of_int s
            = (Ok tt, mkHooked (inr d) (root_device s) (plugins_constructed s)
                        (hook_calls s))) as Hn.
  { intros s0 n d E Et. unfold pre_dispatch, mbind, M_bind, bind, get.
    rewrite E. simpl. by rewrite Et. }
  assert (∀ s n e, device s = inl n → torch_device_of_int n = Raise e →
            pre_dispatch torch_device_of_int s = (Raise e, s)) as He.
  { intros s0 n e E Et. unfold pre_dispatch, mbind, M_bind, bind, get.
    rewrite E. simpl. by rewrite Et. }
  split; [|split; [exact (Hd s)|split; [exact (Hn s)|exact (He s)]]].
  destruct (device s) as [n|d] eqn:E.
  - destruct (torch_device_of_int n) as [d|e] eqn:Et.
    + rewrite (bind_ok _ _ _ _ _ (Hn _ _ _ E Et)), (Hn _ _ _ E Et).
      by apply (Hd _ d).
    + by rewrite (bind_raise _ _ _ _ _ (He _ _ _ E Et)), (He _ _ _ E Et).
  - by rewrite (bind_ok _ _ _ _ _ (Hd _ _ E)).
Qed.

(** X21. After the constructor, [pre_dispatch] has nothing to do: if the
    superclass's constructor returns with the device it was given in
    [self.device], that is a [torch.device] and never an [int], so
    [pre_dispatch] after the constructor changes nothing, whatever [device]
    the caller passed and whatever [torch.device] would do with an [int]. *)
Theorem pre_dispatch_after_init (device_arg : Z) checkpoint_io s :
  (∀ d io s, ∃ s', SingleDeviceStrategy___init__ d io s = (Ok tt, s') ∧
                   device s' = inr d) →
  ∃ s', __init__ SingleDeviceStrategy___init__ device_arg checkpoint_io s = (Ok tt, s') ∧
        device s' = inr (torch_device "hpu" None) ∧
        (__init__ SingleDeviceStrategy___init__ device_arg checkpoint_io ;;
         pre_dispatch torch_device_of_int) s = (Ok tt, s').
Proof.
  intros Hsuper.
  assert (∃ s', __init__ SingleDeviceStrategy___init__ device_arg checkpoint_io s
                = (Ok tt, s') ∧ device s' = inr (torch_device "hpu" None))
    as (s' & E & Hdev).
  { unfold __init__. destruct checkpoint_io as [io|].
    - unfold mbind, M_bind, bind. simpl. unfold hooked.
      destruct (Hsuper (torch_device "hpu" None) io s) as (s1 & -> & Hd).
      by eexists.
    - unfold mbind, M_bind, bind. simpl. unfold hooked.
      match goal with |- context [SingleDeviceStrategy___init__ ?d ?io ?s0] =>
        destruct (Hsuper d io s0) as (s1 & -> & Hd) end.
      by eexists. }
  exists s'. split; [done|]. split; [done|].
  rewrite (bind_ok _ _ _ _ _ E).
  by apply (pre_dispatch_on_torch_device s' (torch_device "hpu" None)).
Qed.

End hooks.

(** With a superclass that keeps the device, the [int] 3 the caller passed
    is nowhere afterwards. *)
Lemma pre_dispatch_after_init_3 :
  ∃ s', __init__ storing_init 3%Z None undispatched = (Ok tt, s') ∧
        device s' = inr (torch_device "hpu" None) ∧
        (__init__ storing_init 3%Z None ;; pre_dispatch ordinal_device) undispatched
        = (Ok tt, s').
Proof.
  apply (pre_dispatch_after_init storing_init ordinal_device 3%Z None undispatched).
  intros d io s. by eexists.
Defined.

(** Moving the model fails: the superclass's [setup] is not reached. *)
Lemma setup_model_move_fails :
  (setup quiet_setup failing_to 7 undispatched).1
  = Raise (RuntimeError "no such device") ∧
  hook_calls (setup quiet_setup failing_to 7 undispatched).2
  = hook_calls undispatched ++ [Model_to (root_device undispatched)].
Proof.
  apply (proj1 (setup_moves_model_first quiet_setup failing_to 7 undispatched)
           (RuntimeError "no such device") undispatched).
  reflexivity.
Defined.

(** The [int] 0 becomes the device of ordinal 0, once. *)
Lemma pre_dispatch_ordinal_0 :
  pre_dispatch ordinal_device undispatched
  = (Ok tt, mkHooked (inr (torch_device "cuda" (Some 0%Z))) (root_device undispatched)
              (plugins_constructed undispatched) (hook_calls undispatched)).
Proof.
  apply (proj1 (proj2 (proj2 (pre_dispatch_idempotent ordinal_device undispatched)))
           0%Z (torch_device "cuda" (Some 0%Z))); reflexivity.
Defined.

End HPUStrategyMore.

(** ** More on HPUParallelStrategy *)
Module HPUParallelStrategyMore.
Import Py parallel_hpu PyFacts HPUParallelStrategyFacts.

Section HPUParallelStrategy.
Variable DDPStrategy : string → Kwargs → M World PyObj.
Variable habana : string → M World unit.
Implicit Type w : World.

Lemma traced_raise {X} c (f : M World X) w e w' :
  f w = (Raise e, w') →
  traced c f w = (Raise e, mkWorld (environ w') (self w') (calls w ++ [c])).
Proof. intros E. unfold traced. by rewrite E. Qed.

(** X11. [teardown] returns exactly when the superclass's [teardown]
    does, whether or not the two variables are set ([pop] with a default
    raises no [KeyError]); it then leaves both unset and every other
    variable, and the strategy object, as the superclass left them. *)
Theorem teardown_removes_only_its_variables w :
  ((∃ w2, teardown DDPStrategy w = (Ok tt, w2)) ↔
   (∃ v w', DDPStrategy "teardown" [] w = (Ok v, w'))) ∧
  (∀ v w', DDPStrategy "teardown" [] w = (Ok v, w') →
     ∃ w2, teardown DDPStrategy w = (Ok tt, w2) ∧
       environ w2 !! "ID" = None ∧
       environ w2 !! "HCCL_DISTRIBUTED_BACKEND" = None ∧
       (∀ key, key ≠ "ID" → key ≠ "HCCL_DISTRIBUTED_BACKEND" →
          environ w2 !! key = environ w' !! key) ∧
       self w2 = self w').
Proof.
  split.
  - split.
    + intros [w2 H]. by apply teardown_returns_inv in H.
    + intros (v & w' & E). rewrite (teardown_spec _ _ _ _ E). by eexists.
  - intros v w' E. rewrite (teardown_spec _ _ _ _ E). eexists. split; [done|].
    simpl. split; [by rewrite lookup_delete_ne, lookup_delete_eq|].
    split; [by rewrite lookup_delete_eq|]. split; [|done].
    intros key H1 H2. by rewrite !lookup_delete_ne.
Qed.

(** X12. When the superclass's [teardown] raises, [teardown] raises the
    same exception and removes nothing: the environment is as the superclass
    left it, so a variable it did not remove stays set. *)
Theorem teardown_superclass_raises_leaks w e w' :
  DDPStrategy "teardown" [] w = (Raise e, w') →
  teardown DDPStrategy w =
    (Raise e, mkWorld (environ w') (self w') (calls w ++ [Super "teardown" []])) ∧
  (∀ key value, environ w' !! key = Some value →
     environ (teardown DDPStrategy w).2 !! key = Some value).
Proof.
  intros E.
  assert (teardown DDPStrategy w =
    (Raise e, mkWorld (environ w') (self w') (calls w ++ [Super "teardown" []]))) as H.
  { unfold teardown, super. by rewrite (bind_raise _ _ _ _ _ (traced_raise _ _ _ _ _ E)). }
  split; [exact H|]. rewrite H. done.
Qed.

(** X13. [setup_environment] followed by [teardown] does not put back
    what was there: with a superclass that leaves the environment alone, the
    environment ends as it began minus [ID] and [HCCL_DISTRIBUTED_BACKEND],
    values the process had for them before included, and on every backend. *)
Theorem setup_teardown_forgets_previous_values w :
  leaves_environ (DDPStrategy "setup_environment" []) →
  leaves_environ (DDPStrategy "teardown" []) →
  ∃ w1 w2,
    setup_environment DDPStrategy w = (Ok tt, w1) ∧
    teardown DDPStrategy w1 = (Ok tt, w2) ∧
    environ w2 = delete "HCCL_DISTRIBUTED_BACKEND" (delete "ID" (environ w)).
Proof.
  intros Hs Ht.
  rewrite setup_environment_announces. unfold super.
  destruct (Hs (announced w)) as (v & w0' & Es & Henv).
  rewrite (bind_ok _ _ _ _ _ (traced_ok _ _ _ _ _ Es)).
  eexists _. 
  match goal with |- ∃ w2, mret tt ?w1 = _ ∧ _ =>
    destruct (Ht w1) as (v' & w1' & Et & Henv') end.
  eexists. split; [reflexivity|]. split; [apply (teardown_spec _ _ _ _ Et)|].
  simpl. rewrite Henv'. simpl. rewrite Henv. unfold announced. simpl.
  apply map_eq. intros key.
  destruct (decide (key = "HCCL_DISTRIBUTED_BACKEND")) as [->|H2];
    [by rewrite !lookup_delete_eq|].
  rewrite !(lookup_delete_ne _ "HCCL_DISTRIBUTED_BACKEND") by done.
  destruct (decide (key = "ID")) as [->|H1]; [by rewrite !lookup_delete_eq|].
  rewrite !(lookup_delete_ne _ "ID") by done.
  case_decide; simpl; by rewrite ?lookup_insert_ne by done.
Qed.

(** X14. When the superclass's [setup_environment] raises,
    [setup_environment] raises the same exception and takes nothing back:
    the superclass was called with [ID] already set, and the environment
    stays as the superclass left it. *)
Theorem setup_environment_superclass_raises w e w' :
  DDPStrategy "setup_environment" [] (announced w) = (Raise e, w') →
  environ (announced w) !! "ID" = Some (str (local_rank (self w))) ∧
  setup_environment DDPStrategy w =
    (Raise e, mkWorld (environ w') (self w')
                (calls w ++ [Super "setup_environment" []])).
Proof.
  intros E. split.
  - unfold announced. simpl. case_decide; simpl.
    + by rewrite lookup_insert_ne, lookup_insert_eq.
    + by rewrite lookup_insert_eq.
  - rewrite setup_environment_announces. unfold super.
    by rewrite (bind_raise _ _ _ _ _ (traced_raise _ _ _ _ _ E)).
Qed.

(** X15. The value of [ID] tells the local rank: if [setup_environment]
    hands the same [ID] to the superclass in two worlds, the two strategies
    have the same local rank. *)
Theorem ID_determines_local_rank w1 w2 :
  environ (announced w1) !! "ID" = environ (announced w2) !! "ID" →
  setup_environment DDPStrategy w1 =
    (super DDPStrategy "setup_environment" [] ;; mret tt) (announced w1) ∧
  setup_environment DDPStrategy w2 =
    (super DDPStrategy "setup_environment" [] ;; mret tt) (announced w2) ∧
  local_rank (self w1) = local_rank (self w2).
Proof.
  intros H. split; [apply setup_environment_announces|].
  split; [apply setup_environment_announces|].
  assert (∀ w, environ (announced w) !! "ID"
               = Some (str (local_rank (self w)))) as Hid.
  { intros w. unfold announced. simpl. case_decide; simpl.
    - by rewrite lookup_insert_ne, lookup_insert_eq.
    - by rewrite lookup_insert_eq. }
  rewrite !Hid in H. injection H as H. by apply (inj pretty) in H.
Qed.


(** X17. On a torch up to 1.13.1, when [htcore.mark_step] raises after
    the superclass's [optimizer_step] has returned, [optimizer_step] raises
    that exception: the step was taken, its value is lost to the caller. *)
Theorem optimizer_step_flush_raises optimizer kwargs w vo wo e :
  DDPStrategy "optimizer_step"
    [("optimizer", optimizer); ("kwargs", PyDict kwargs)] w = (Ok vo, wo) →
  (∀ w, ∃ w', habana "mark_step" w = (Raise e, w')) →
  ∃ w',
    optimizer_step true true DDPStrategy habana optimizer kwargs w = (Raise e, w') ∧
    calls w' =
      calls w ++
      [Super "optimizer_step" [("optimizer", optimizer); ("kwargs", PyDict kwargs)];
       Htcore "mark_step"].
Proof.
  intros Eo Hm. unfold optimizer_step, super.
  rewrite (bind_ok _ _ _ _ _ (traced_ok _ _ _ _ _ Eo)).
  unfold htcore. cbv iota.
  lazymatch goal with |- context [(_ ≫= _) ?w1] => destruct (Hm w1) as [w2 Em] end.
  rewrite (bind_raise _ _ _ _ _ (traced_raise _ _ _ _ _ Em)).
  eexists. split; [done|]. simpl. by rewrite <- app_assoc.
Qed.

(** X18. The constructor returns normally exactly when the accelerator
    is available and the superclass's constructor returns; the superclass is
    then called once, with the arguments as given, on an object whose
    [_process_group_backend] is already ["hccl"], whatever
    [process_group_backend] was passed. *)
Theorem init_returns_iff (hpu : bool) accelerator parallel_devices cluster_environment
    checkpoint_io precision process_group_backend timeout start_method kwargs w :
  (∃ w', __init__ hpu DDPStrategy accelerator parallel_devices cluster_environment
           checkpoint_io precision process_group_backend timeout start_method kwargs w
         = (Ok tt, w')) ↔
  hpu = true ∧
  ∃ v w',
    DDPStrategy "__init__"
      ([("accelerator", accelerator); ("parallel_devices", parallel_devices);
        ("cluster_environment", cluster_environment); ("checkpoint_io", checkpoint_io);
        ("precision", precision); ("process_group_backend", process_group_backend);
        ("timeout", timeout); ("start_method", start_method)] ++ kwargs)
      (mkWorld (environ w) (mkSelf (Some "hccl") (local_rank (self w))) (calls w))
    = (Ok v, w').
Proof.
  unfold __init__. destruct hpu; simpl.
  - unfold mbind at 1, M_bind at 1, bind at 1, modify at 1.
    unfold mbind, M_bind, bind, super, traced.
    match goal with |- context [DDPStrategy ?m ?kw ?w0] =>
      destruct (DDPStrategy m kw w0) as [[v|e] w1] end.
    + split; [intros _; split; [done|by eauto] | by eauto].
    + split; [by intros [? ?] | by intros [_ (? & ? & ?)]].
  - split; [by intros [? ?] | by intros [? _]].
Qed.

End HPUParallelStrategy.

(** *** The [checkpoint_io] property *)

(** X19. The getter never yields [None] and constructs the default
    plug-in at most once: a second read returns the object of the first and
    constructs nothing. *)
Theorem checkpoint_io_is_cached s :
  ∃ io s1,
    checkpoint_io s = (Ok (Some io), s1) ∧
    _checkpoint_io s1 = Some io ∧
    constructed s1 ≤ S (constructed s) ∧
    (constructed s1 = constructed s ↔ _checkpoint_io s ≠ None) ∧
    checkpoint_io s1 = (Ok (Some io), s1).
Proof.
  destruct s as [[io|] n].
  - exists io, (mkSlot (Some io) n). simpl.
    split; [done|]. split; [done|]. split; [lia|]. split; [|done].
    split; [done|]. intros _. done.
  - exists (TorchCheckpointIO n), (mkSlot (Some (TorchCheckpointIO n)) (S n)).
    simpl. split; [done|]. split; [done|]. split; [lia|]. split; [|done].
    split; [lia|]. intros H. by destruct H.
Qed.

(** X20. Set then get: after [self.checkpoint_io = io] the getter
    returns [io] itself and constructs nothing; after
    [self.checkpoint_io = None] it returns a newly constructed
    [TorchCheckpointIO], different from every one constructed before. *)
Theorem checkpoint_io_set_then_get s :
  (∀ io, (set_checkpoint_io (Some io) ;; checkpoint_io) s
         = (Ok (Some io), mkSlot (Some io) (constructed s))) ∧
  (set_checkpoint_io None ;; checkpoint_io) s
  = (Ok (Some (TorchCheckpointIO (constructed s))),
     mkSlot (Some (TorchCheckpointIO (constructed s))) (S (constructed s))) ∧
  (∀ n, n < constructed s → TorchCheckpointIO (constructed s) ≠ TorchCheckpointIO n).
Proof.
  split; [done|]. split; [done|]. intros n Hn [= E]. lia.
Qed.


(** A failing superclass [teardown] leaves [ID] set. *)
Lemma teardown_superclass_raises_leaks_ID :
  teardown failing_DDPStrategy (mkWorld (<["ID" := "3"]> ∅) (mkSelf (Some "hccl") 3) []) =
    (Raise (OtherException 0),
     mkWorld (environ (mkWorld (<["ID" := "3"]> ∅) (mkSelf (Some "hccl") 3) []))
       (self (mkWorld (<["ID" := "3"]> ∅) (mkSelf (Some "hccl") 3) []))
       (calls (mkWorld (<["ID" := "3"]> ∅) (mkSelf (Some "hccl") 3) [])
        ++ [Super "teardown" []])) ∧
  (∀ key value,
     environ (mkWorld (<["ID" := "3"]> ∅) (mkSelf (Some "hccl") 3) []) !! key = Some value →
     environ (teardown failing_DDPStrategy
                (mkWorld (<["ID" := "3"]> ∅) (mkSelf (Some "hccl") 3) [])).2 !! key
     = Some value).
Proof.
  apply (teardown_superclass_raises_leaks failing_DDPStrategy
           (mkWorld (<["ID" := "3"]> ∅) (mkSelf (Some "hccl") 3) [])
           (OtherException 0)
           (mkWorld (<["ID" := "3"]> ∅) (mkSelf (Some "hccl") 3) [])).
  reflexivity.
Defined.

(** On [occupied] the user's values of both variables are gone afterwards;
    only [HOME] is left. *)
Lemma setup_teardown_forgets_previous_values_occupied :
  ∃ w1 w2,
    setup_environment quiet_DDPStrategy occupied = (Ok tt, w1) ∧
    teardown quiet_DDPStrategy w1 = (Ok tt, w2) ∧
    environ w2 = delete "HCCL_DISTRIBUTED_BACKEND" (delete "ID" (environ occupied)).
Proof.
  apply (setup_teardown_forgets_previous_values quiet_DDPStrategy occupied).
  - intros w. by exists PyNone, w.
  - intros w. by exists PyNone, w.
Defined.

Lemma setup_environment_superclass_raises_rank3 :
  environ (announced (fresh (Some "hccl") 3)) !! "ID"
  = Some (str (local_rank (self (fresh (Some "hccl") 3)))) ∧
  setup_environment failing_DDPStrategy (fresh (Some "hccl") 3) =
    (Raise (OtherException 0),
     mkWorld (environ (announced (fresh (Some "hccl") 3)))
       (self (announced (fresh (Some "hccl") 3)))
       (calls (fresh (Some "hccl") 3) ++ [Super "setup_environment" []])).
Proof.
  apply (setup_environment_superclass_raises failing_DDPStrategy
           (fresh (Some "hccl") 3) (OtherException 0) (announced (fresh (Some "hccl") 3))).
  reflexivity.
Defined.

(** Two processes of local rank 3 on different backends. *)
Lemma ID_determines_local_rank_3 :
  setup_environment quiet_DDPStrategy (fresh (Some "hccl") 3) =
    (super quiet_DDPStrategy "setup_environment" [] ;; mret tt)
      (announced (fresh (Some "hccl") 3)) ∧
  setup_environment quiet_DDPStrategy (fresh None 3) =
    (super quiet_DDPStrategy "setup_environment" [] ;; mret tt)
      (announced (fresh None 3)) ∧
  local_rank (self (fresh (Some "hccl") 3)) = local_rank (self (fresh None 3)).
Proof.
  apply (ID_determines_local_rank quiet_DDPStrategy
           (fresh (Some "hccl") 3) (fresh None 3)).
  by vm_compute.
Defined.


Lemma optimizer_step_flush_raises_failing :
  ∃ w',
    optimizer_step true true quiet_DDPStrategy failing_habana (Object 2) []
      (fresh (Some "hccl") 0) = (Raise (OtherException 1), w') ∧
    calls w' =
      calls (fresh (Some "hccl") 0) ++
      [Super "optimizer_step" [("optimizer", Object 2); ("kwargs", PyDict [])];
       Htcore "mark_step"].
Proof.
  apply (optimizer_step_flush_raises quiet_DDPStrategy failing_habana (Object 2) []
           (fresh (Some "hccl") 0) PyNone (fresh (Some "hccl") 0) (OtherException 1)).
  - reflexivity.
  - intros w. by exists w.
Defined.

End HPUParallelStrategyMore.
